(** * goblin: the unit-of-work [Session] (src/goblin/session.py)

    A shallow embedding of [goblin.session.Session].  Python objects live in
    a heap of attribute dictionaries and are handled by reference, so that
    aliasing between the caller's element, the value returned by the mapper
    and the identity cache is visible.  Every coroutine of the class becomes
    a computation in a state-and-exception monad; an exception keeps the
    mutations made before it was raised, as in Python. *)

From stdpp Require Import gmap strings list fin_maps.

Open Scope string_scope.
Open Scope list_scope.

(** ** Python values and objects *)

(** Object identity (what [is] compares). *)
Definition ref := nat.

Inductive pyval :=
| VNone
| VBool (b : bool)
| VInt (z : Z)
| VStr (s : string)
| VRef (r : ref).

#[global] Instance pyval_eq_dec : EqDecision pyval.
Proof. solve_decision. Defined.

Definition pyval_enc (v : pyval) : unit + bool + Z + string + nat :=
  match v with
  | VNone => inl (inl (inl (inl tt)))
  | VBool b => inl (inl (inl (inr b)))
  | VInt z => inl (inl (inr z))
  | VStr s => inl (inr s)
  | VRef r => inr r
  end.

Definition pyval_dec (x : unit + bool + Z + string + nat) : pyval :=
  match x with
  | inl (inl (inl (inl _))) => VNone
  | inl (inl (inl (inr b))) => VBool b
  | inl (inl (inr z)) => VInt z
  | inl (inr s) => VStr s
  | inr r => VRef r
  end.

(** The values can be enumerated. *)
#[global] Instance pyval_countable : Countable pyval.
Proof. apply (inj_countable' pyval_enc pyval_dec). by intros []. Defined.

(** Keys of a Python [dict].  A dictionary finds a key by hash and [==], not
    by identity of the key object: [True] is the key [1] and [False] the key
    [0]; [None], strings and objects (compared by identity) are keys of their
    own.  A [dict] is therefore a map on [dkey], reached through [dict_key].
    All the values of [pyval] are hashable: the [TypeError] of an unhashable
    key, a list say, has no counterpart here, and the statements below speak
    of hashable ids only. *)
Inductive dkey :=
| KNone
| KInt (z : Z)
| KStr (s : string)
| KRef (r : ref).

#[global] Instance dkey_eq_dec : EqDecision dkey.
Proof. solve_decision. Defined.

Definition dkey_enc (k : dkey) : unit + Z + string + nat :=
  match k with
  | KNone => inl (inl (inl tt))
  | KInt z => inl (inl (inr z))
  | KStr s => inl (inr s)
  | KRef r => inr r
  end.

Definition dkey_dec (x : unit + Z + string + nat) : dkey :=
  match x with
  | inl (inl (inl _)) => KNone
  | inl (inl (inr z)) => KInt z
  | inl (inr s) => KStr s
  | inr r => KRef r
  end.

#[global] Instance dkey_countable : Countable dkey.
Proof. apply (inj_countable' dkey_enc dkey_dec). by intros []. Defined.

(** The key a value is, as a dictionary sees it. *)
Definition dict_key (v : pyval) : dkey :=
  match v with
  | VNone => KNone
  | VBool b => KInt (if b then 1 else 0)
  | VInt z => KInt z
  | VStr s => KStr s
  | VRef r => KRef r
  end.

(** An object is its attribute dictionary (class attributes such as
    [__type__] and [__mapping__] flattened in): [hasattr(o, n)] is
    [is_Some (o !! n)]. *)
Abbreviation object := (gmap string pyval).

(** Python truthiness of a value. *)
Definition truthy (v : pyval) : bool :=
  match v with
  | VNone => false
  | VBool b => b
  | VInt z => negb (Z.eqb z 0)
  | VStr s => negb (String.eqb s "")
  | VRef _ => true
  end.

Definition type_name (v : pyval) : string :=
  match v with
  | VNone => "NoneType"
  | VBool _ => "bool"
  | VInt _ => "int"
  | VStr _ => "str"
  | VRef _ => "object"
  end.

(** ** Exceptions and outcomes *)

Inductive exn :=
| Exception (msg : string)
| TypeError (msg : string)
| KeyError (k : pyval)
| AttributeError (name : string)
| IndexError
| NotImplementedError
| TransportError (msg : string).

(** [Diverged] is not a Python outcome: it marks a run of the [while] loop of
    [flush] that was cut off by the fuel bound. *)
Inductive outcome (A : Type) :=
| Ok (a : A)
| Raise (e : exn)
| Diverged.
Arguments Ok {A} a.
Arguments Raise {A} e.
Arguments Diverged {A}.

(** ** Traversal descriptions *)

Inductive intent := FetchById | Create | Update | Delete.
Inductive kind := Vertex | Edge.

#[global] Instance intent_eq_dec : EqDecision intent.
Proof. solve_decision. Defined.
#[global] Instance kind_eq_dec : EqDecision kind.
Proof. solve_decision. Defined.

(** Modelled from the spec: the Query Builder ([goblin.query.Query], not in
    src/): "given a domain object and an intent (fetch-by-id, create, update,
    delete), produces a traversal description", "pure, no I/O".  The
    description is kept symbolic: the intent, the element kind, the element
    and the attributes it had when the builder read it. *)
Record traversal := Traversal {
  tr_intent : intent;
  tr_kind : kind;
  tr_elem : ref;
  tr_attrs : object;
}.

Definition Script := string.
Definition Bindings := list (string * pyval).

Section Model.

(** The remote side: [World] is the state of the backend and transport,
    [Stream] a pending response, [Row] one result row. *)
Context {World Stream Row : Type}.

(** The collaborators the session is given or imports.  [submit] and
    [fetch_data] are the two operations that really suspend the coroutine;
    besides their result they report the elements that other cooperative
    tasks passed to [Session.add] while the session was suspended. *)
Record collaborators := {
  (** [engine._features['transactions']] *)
  transactions : bool;
  (** [query.parse_traversal] *)
  parse_traversal : traversal → Script * Bindings;
  (** [engine.submit(script, bindings=..., session=...)] *)
  submit : Script → Bindings → pyval → World → (exn + Stream) * list ref * World;
  (** [stream.fetch_data()], giving [result.data] *)
  fetch_data : Stream → World → (exn + list Row) * list ref * World;
  (** the server-assigned id carried by a row *)
  row_id : Row → pyval;
  (** how the mapper writes the fields of a row, per kind and mapping: the
      attributes of the element once the row is merged, or, for a row it
      cannot map, its failure and the attributes the element is left with *)
  merge_fields : kind → Row → pyval → object → exn * object + object;
}.

Variable C : collaborators.

(** Ghost log of the calls made, oldest first. *)
Inductive event :=
| EvSave (e : ref)
| EvBuild (t : traversal)
| EvExecute (t : traversal)
| EvSubmit (script : Script) (bindings : Bindings) (session : pyval)
| EvFetch (st : Stream)
| EvMap (k : kind) (r : Row) (e : ref)
| EvAdd (e : ref)
| EvTx.

Record state := State {
  _use_session : pyval;
  _session : pyval;
  _pending : list ref;
  _current : gmap dkey ref;
  heap : gmap ref object;
  world : World;
  trace : list event;
}.

Definition M (A : Type) : Type := state → outcome A * state.

#[global] Instance M_ret : MRet M := λ A a s, (Ok a, s).
#[global] Instance M_bind : MBind M := λ A B f m s,
  match m s with
  | (Ok a, s') => f a s'
  | (Raise e, s') => (Raise e, s')
  | (Diverged, s') => (Diverged, s')
  end.

Definition raise {A} (e : exn) : M A := λ s, (Raise e, s).
Definition diverge {A} : M A := λ s, (Diverged, s).
Definition get {A} (f : state → A) : M A := λ s, (Ok (f s), s).
Definition modify (f : state → state) : M unit := λ s, (Ok tt, f s).

Definition set_pending (q : list ref) (s : state) : state :=
  State (_use_session s) (_session s) q (_current s) (heap s) (world s) (trace s).
Definition set_current (c : gmap dkey ref) (s : state) : state :=
  State (_use_session s) (_session s) (_pending s) c (heap s) (world s) (trace s).
Definition set_heap (h : gmap ref object) (s : state) : state :=
  State (_use_session s) (_session s) (_pending s) (_current s) h (world s) (trace s).
Definition set_world (w : World) (s : state) : state :=
  State (_use_session s) (_session s) (_pending s) (_current s) (heap s) w (trace s).
Definition set_trace (t : list event) (s : state) : state :=
  State (_use_session s) (_session s) (_pending s) (_current s) (heap s) (world s) t.

Definition log (ev : event) : M unit :=
  modify (λ s, set_trace (trace s ++ [ev]) s).

(** Elements appended to the pending queue by other tasks during a
    suspension ([Session.add] called from outside). *)
Definition arrive (es : list ref) : M unit :=
  modify (λ s, set_trace (trace s ++ (EvAdd <$> es)) (set_pending (_pending s ++ es) s)).

(** *** Attribute access *)

Definition attrs (s : state) (e : ref) : object := heap s !!! e.

(** [hasattr(e, n)] *)
Definition hasattr (e : ref) (n : string) : M bool :=
  get (λ s, bool_decide (is_Some (attrs s e !! n))).

(** [e.n] *)
Definition getattr (e : ref) (n : string) : M pyval := λ s,
  match attrs s e !! n with
  | Some v => (Ok v, s)
  | None => (Raise (AttributeError n), s)
  end.

(** Calling a value: none of the values of [pyval] is callable. *)
Definition py_call (v : pyval) : M pyval :=
  raise (TypeError ("'" +:+ type_name v +:+ "' object is not callable")).

(** *** Collaborator calls *)

(** Modelled from the spec: the methods of the Query Builder
    ([goblin.query.Query], not in src/), [self.query.<intent>_<kind>(element)]:
    each "returns a Traversal Description given an element; pure, no I/O". *)
Definition build (i : intent) (k : kind) (e : ref) : M traversal :=
  o ← get (λ s, attrs s e);
  let t := Traversal i k e o in
  log (EvBuild t);; mret t.

(** [await self.engine.submit(script, bindings=bindings, session=session)] *)
Definition engine_submit (script : Script) (bindings : Bindings) (session : pyval)
  : M Stream :=
  log (EvSubmit script bindings session);;
  w ← get world;
  let '(r, es, w') := submit C script bindings session w in
  modify (set_world w');;
  arrive es;;
  match r with
  | inl e => raise e
  | inr st => mret st
  end.

(** [(await stream.fetch_data()).data] *)
Definition stream_fetch_data (st : Stream) : M (list Row) :=
  log (EvFetch st);;
  w ← get world;
  let '(r, es, w') := fetch_data C st w in
  modify (set_world w');;
  arrive es;;
  match r with
  | inl e => raise e
  | inr rows => mret rows
  end.

(** Modelled from the spec: the Mapper ([goblin.mapper], not in src/):
    "merges one result row onto [element] per [mapping]; returns the mutated
    element", after which the element's identity "equals the server-assigned
    id" of the row.  The element is updated in place and the same object is
    returned; a mapping failure propagates ("callers must be prepared to
    receive any propagated transport or mapping failure"), and nothing is
    assumed of the element then: it is left with whatever the mapper had
    written when it failed. *)
Definition map_to_ogm (k : kind) (row : Row) (element : ref) (mapping : pyval)
  : M ref :=
  log (EvMap k row element);;
  o ← get (λ s, attrs s element);
  match merge_fields C k row mapping o with
  | inl (x, partial) =>
      modify (λ s, set_heap (<[element := partial]> (heap s)) s);;
      raise x
  | inr o' =>
      modify (λ s, set_heap (<[element := <["id" := row_id C row]> o']> (heap s)) s);;
      mret element
  end.

Definition map_vertex_to_ogm := map_to_ogm Vertex.
Definition map_edge_to_ogm := map_to_ogm Edge.

(** ** class Session *)

(** [__init__]: the keyword argument [use_session] is accepted but the
    attribute is set to [False]. *)
Definition Session_init (use_session : bool) (h : gmap ref object) (w : World) : state :=
  State (VBool false) VNone [] ∅ h w [].

(** [add(elements...)] *)
Definition add (elements : list ref) : M unit :=
  modify (λ s, set_pending (_pending s ++ elements) s).

(** [_wrap_in_tx(self)]: declared without a script parameter. *)
Definition _wrap_in_tx (args : list Script) : M Script :=
  match args with
  | [] => raise NotImplementedError
  | _ => raise (TypeError "_wrap_in_tx() takes 1 positional argument but 2 were given")
  end.

(** [tx(self)] *)
Definition tx : M unit := log EvTx;; raise NotImplementedError.

(** [execute_traversal(traversal)] *)
Definition execute_traversal (t : traversal) : M Stream :=
  log (EvExecute t);;
  let '(script, bindings) := parse_traversal C t in
  script ← (if transactions C then
              f ← get _use_session;
              u ← py_call f;
              if negb (truthy u) then _wrap_in_tx [script] else mret script
            else mret script);
  session ← get _session;
  engine_submit script bindings session.

(** [_save_element(element, get_func, create_func, update_func, mapper_func)] *)
Definition _save_element (element : ref)
    (get_func create_func update_func : ref → M traversal)
    (mapper_func : Row → ref → pyval → M ref) : M ref :=
  has_id ← hasattr element "id";
  traversal ← (if has_id : bool then
                 traversal ← get_func element;
                 stream ← execute_traversal traversal;
                 data ← stream_fetch_data stream;
                 match data with
                 | [] => create_func element
                 | _ :: _ => update_func element
                 end
               else create_func element);
  stream ← execute_traversal traversal;
  data ← stream_fetch_data stream;
  match data with
  | [] => raise IndexError
  | row :: _ =>
      mapping ← getattr element "__mapping__";
      mapper_func row element mapping
  end.

(** [self.current[key] = value]: binds the key that [key] is, rebinding it
    when an equal key is there already. *)
Definition current_set (key : pyval) (value : ref) : M unit :=
  modify (λ s, set_current (<[dict_key key := value]> (_current s)) s).

(** [del self.current[key]]: [KeyError] when no equal key is there. *)
Definition current_del (key : pyval) : M unit := λ s,
  match _current s !! dict_key key with
  | Some _ => (Ok tt, set_current (delete (dict_key key) (_current s)) s)
  | None => (Raise (KeyError key), s)
  end.

(** [save_vertex(element)] *)
Definition save_vertex (element : ref) : M ref :=
  result ← _save_element element (build FetchById Vertex) (build Create Vertex)
             (build Update Vertex) map_vertex_to_ogm;
  rid ← getattr result "id";
  current_set rid result;;
  mret result.

(** [save_edge(element)] *)
Definition save_edge (element : ref) : M ref :=
  has_source ← hasattr element "source";
  has_target ← hasattr element "target";
  if negb (has_source && has_target) then
    raise (Exception "Edges require source/target vetices")
  else
    result ← _save_element element (build FetchById Edge) (build Create Edge)
               (build Update Edge) map_edge_to_ogm;
    rid ← getattr result "id";
    current_set rid result;;
    mret result.

(** [save(element)] *)
Definition save (element : ref) : M ref :=
  log (EvSave element);;
  ty ← getattr element "__type__";
  if bool_decide (ty = VStr "vertex") then save_vertex element
  else if bool_decide (ty = VStr "edge") then save_edge element
  else raise (Exception "Unknown element type").

(** [flush()]: [while self._pending: elem = popleft(); await save(elem)].
    The queue can grow while a save is suspended, so the loop is bounded by
    fuel. *)
Fixpoint flush (fuel : nat) : M unit :=
  match fuel with
  | 0 => diverge
  | S fuel' =>
      q ← get _pending;
      match q with
      | [] => mret tt
      | elem :: rest =>
          modify (set_pending rest);;
          save elem;;
          flush fuel'
      end
  end.

(** [_remove_element(element, traversal)] *)
Definition _remove_element (element : ref) (t : traversal) : M (list Row) :=
  stream ← execute_traversal t;
  result ← stream_fetch_data stream;
  i ← getattr element "id";
  current_del i;;
  mret result.

(** [remove_vertex(element)] / [remove_edge(element)] *)
Definition remove_vertex (element : ref) : M (list Row) :=
  traversal ← build Delete Vertex element;
  _remove_element element traversal.

Definition remove_edge (element : ref) : M (list Row) :=
  traversal ← build Delete Edge element;
  _remove_element element traversal.

(** [get_vertex(element)]: falls off the end, returning [None], when the
    result is empty. *)
Definition get_vertex (element : ref) : M (option ref) :=
  traversal ← build FetchById Vertex element;
  stream ← execute_traversal traversal;
  data ← stream_fetch_data stream;
  match data with
  | row :: _ =>
      mapping ← getattr element "__mapping__";
      vertex ← map_vertex_to_ogm row element mapping;
      mret (Some vertex)
  | [] => mret None
  end.

(** [get_edge(element)] *)
Definition get_edge (element : ref) : M (option ref) :=
  traversal ← build FetchById Edge element;
  stream ← execute_traversal traversal;
  data ← stream_fetch_data stream;
  match data with
  | row :: _ =>
      mapping ← getattr element "__mapping__";
      vertex ← map_edge_to_ogm row element mapping;
      mret (Some vertex)
  | [] => mret None
  end.

(** [commit()] *)
Definition commit (fuel : nat) : M unit :=
  flush fuel;;
  (if transactions C then
     f ← get _use_session;
     u ← py_call f;
     if truthy u then tx else mret tt
   else mret tt);;
  raise NotImplementedError.

(** [rollback()] *)
Definition rollback : M unit := raise NotImplementedError.

(** ** The backend's side of one round trip *)

(** What the backend answers to a traversal from a given world when the
    script goes out as compiled: [submit], then [fetch_data] on the stream
    obtained.  This is "the result" of a traversal the statements below
    speak of. *)
Definition remote (t : traversal) (session : pyval) (w : World)
  : (exn + list Row) * list ref * World :=
  let '(script, bindings) := parse_traversal C t in
  let '(r, es1, w1) := submit C script bindings session w in
  match r with
  | inl e => (inl e, es1, w1)
  | inr st =>
      let '(d, es2, w2) := fetch_data C st w1 in
      (d, es1 ++ es2, w2)
  end.

(** Nothing else adds to the session while it is suspended. *)
Definition no_arrivals : Prop :=
  (∀ script bindings session w, (submit C script bindings session w).1.2 = []) ∧
  (∀ st w, (fetch_data C st w).1.2 = []).

(** ** Reading the log *)

Definition saves (t : list event) : list ref :=
  omap (λ ev, match ev with EvSave e => Some e | _ => None end) t.
Definition adds (t : list event) : list ref :=
  omap (λ ev, match ev with EvAdd e => Some e | _ => None end) t.
Definition builds (t : list event) : list traversal :=
  omap (λ ev, match ev with EvBuild b => Some b | _ => None end) t.
Definition executes (t : list event) : list traversal :=
  omap (λ ev, match ev with EvExecute b => Some b | _ => None end) t.
Definition submits (t : list event) : list (Script * Bindings * pyval) :=
  omap (λ ev, match ev with EvSubmit a b c => Some (a, b, c) | _ => None end) t.
Definition fetches (t : list event) : list Stream :=
  omap (λ ev, match ev with EvFetch st => Some st | _ => None end) t.
Definition maps (t : list event) : list (kind * Row * ref) :=
  omap (λ ev, match ev with EvMap k r e => Some (k, r, e) | _ => None end) t.
Definition txs (t : list event) : nat :=
  length (omap (λ ev, match ev with EvTx => Some tt | _ => None end) t).

End Model.

Arguments collaborators : clear implicits.
Arguments state : clear implicits.
Arguments event : clear implicits.

(** ** A canned-reply engine

    A test double for the engine, as a unit test of the session would use:
    the backend answers the n-th submitted script with the n-th canned reply
    (its rows, and the elements that other tasks add to the session while the
    request is in flight) and fails once the replies are used up. *)
Module Mock.

Definition Row : Type := pyval * list (string * pyval).
Definition Stream : Type := list Row.
Definition World : Type := list (list Row * list ref).

Definition parse (t : traversal) : Script * Bindings :=
  ((match tr_intent t with
    | FetchById => "get" | Create => "add" | Update => "update" | Delete => "drop"
    end) +:+
   (match tr_kind t with Vertex => "V" | Edge => "E" end),
   match tr_attrs t !! "id" with Some v => [("id", v)] | None => [] end).

Definition canned_submit (script : Script) (bindings : Bindings) (session : pyval)
    (w : World) : (exn + Stream) * list ref * World :=
  match w with
  | [] => (inl (TransportError "connection lost"), [], [])
  | (rows, es) :: w' => (inr rows, es, w')
  end.

Definition canned_fetch (st : Stream) (w : World) : (exn + list Row) * list ref * World :=
  (inr st, [], w).

Definition merge (k : kind) (row : Row) (mapping : pyval) (o : object)
  : exn * object + object :=
  inr (foldr (λ nv o, <[nv.1 := nv.2]> o) o row.2).

Definition engine (tx : bool) : collaborators World Stream Row :=
  {| transactions := tx; parse_traversal := parse; submit := canned_submit;
     fetch_data := canned_fetch; row_id := fst; merge_fields := merge |}.

(** The same backend on its own: nobody else uses the session. *)
Definition lone_submit (script : Script) (bindings : Bindings) (session : pyval)
    (w : World) : (exn + Stream) * list ref * World :=
  match w with
  | [] => (inl (TransportError "connection lost"), [], [])
  | (rows, _) :: w' => (inr rows, [], w')
  end.

Definition lone_engine : collaborators World Stream Row :=
  {| transactions := false; parse_traversal := parse; submit := lone_submit;
     fetch_data := canned_fetch; row_id := fst; merge_fields := merge |}.

Definition vertex (fields : list (string * pyval)) : object :=
  list_to_map (("__type__", VStr "vertex") :: ("__mapping__", VNone) :: fields).

Definition edge (fields : list (string * pyval)) : object :=
  list_to_map (("__type__", VStr "edge") :: ("__mapping__", VNone) :: fields).

(** A session just built by [Session(engine)] over the given objects and
    canned replies. *)
Definition session (objs : list object) (w : World) : state World Stream Row :=
  Session_init false (list_to_map (zip (seq 0 (length objs)) objs)) w.

(** The same session with some elements already in the identity cache. *)
Definition cached (ids : list (pyval * ref)) (s : state World Stream Row)
  : state World Stream Row :=
  set_current (list_to_map (prod_map dict_key id <$> ids)) s.

(** The same session after [add(elements...)]. *)
Definition queued (elements : list ref) (s : state World Stream Row)
  : state World Stream Row :=
  (add elements s).2.

(** Elements and rows of the scenarios. *)
Definition ada : object := vertex [("name", VStr "ada")].
Definition bob : object := vertex [("id", VStr "3"); ("name", VStr "old")].
Definition bob_again : object := vertex [("id", VStr "3")].
Definition knows_none : object := edge [("source", VNone); ("target", VRef 0)].
Definition knows_loose : object := edge [("target", VRef 0)].
Definition knows3 : object :=
  edge [("id", VStr "3"); ("source", VRef 0); ("target", VRef 0)].

Definition row7 : Row := (VStr "7", [("name", VStr "ada")]).
Definition row8 : Row := (VStr "8", [("name", VStr "eve")]).
Definition row3 : Row := (VStr "3", [("name", VStr "new")]).
Definition row9 : Row := (VStr "9", []).

(** Sessions of the scenarios: the objects (numbered from 0) and the
    replies the backend will give, in order. *)
Definition new_vertex := session [ada] [([row7], [])].
Definition known_vertex := session [bob] [([row3], []); ([row3], [])].
Definition vanished_vertex := session [bob] [([], []); ([row3], [])].
Definition edge_with_none := session [ada; knows_none] [([row9], [])].
Definition edge_without_source := session [ada; knows_loose] [([row9], [])].
Definition queue_abc :=
  queued [0; 1; 2] (session [ada; knows_loose; ada] [([row7], []); ([row8], [])]).
Definition queue_growing :=
  queued [0] (session [ada; ada] [([row7], [1]); ([row8], [])]).
Definition stale_cache :=
  cached [(VStr "3", 0)] (session [bob; bob_again] [([row3], [])]).
Definition absent_edge := session [knows3] [([], [])].
Definition uncached_vertex := session [bob] [([], [])].
Definition nothing_pending := session [] [].

(** More elements and sessions. *)
Definition hyperedge : object := list_to_map [("__type__", VStr "hyperedge")].
Definition knows_new : object := edge [("source", VRef 0); ("target", VRef 0)].

Definition odd_kind := session [hyperedge] [].
Definition new_edge := session [ada; knows_new] [([row9], [])].
Definition known_edge := session [knows3] [([row3], []); ([row3], [])].
Definition offline := session [ada] [].
Definition save_and_remove := session [ada] [([row7], []); ([], [])].

(** A vertex whose id is [True], in a session whose cache holds it under
    the key [1]: to the dictionary, the same key. *)
Definition flagged : object := vertex [("id", VBool true)].
Definition equal_key := cached [(VInt 1, 0)] (session [flagged] [([], [])]).

(** A mapper that refuses a row without fields, after it has cleared the
    name of the element; and the backend with that mapper. *)
Definition picky_merge (k : kind) (row : Row) (mapping : pyval) (o : object)
  : exn * object + object :=
  match row.2 with
  | [] => inl (Exception "row without fields", delete "name" o)
  | _ :: _ => merge k row mapping o
  end.

Definition picky_engine : collaborators World Stream Row :=
  {| transactions := false; parse_traversal := parse; submit := canned_submit;
     fetch_data := canned_fetch; row_id := fst; merge_fields := picky_merge |}.

Definition bare_row := session [ada] [([row9], [])].

End Mock.

(** ** More of the session: the loop of [add], and what [save] accepts *)

Section Queue.
Context {World Stream Row : Type}.

(** [self._pending.append(elem)] *)
Definition pending_append (elem : ref) : @M World Stream Row unit :=
  modify (λ s, set_pending (_pending s ++ [elem]) s).

(** [add(elements...)] as the loop it is: [for elem in elements: append]. *)
Fixpoint add_each (elements : list ref) : @M World Stream Row unit :=
  match elements with
  | [] => mret tt
  | elem :: rest => pending_append elem;; add_each rest
  end.

(** An element [save] takes to the generic persist algorithm as a [k]: its
    discriminator says so and, for an edge, both endpoint attributes exist. *)
Definition saveable (k : kind) (o : object) : Prop :=
  match k with
  | Vertex => o !! "__type__" = Some (VStr "vertex")
  | Edge => o !! "__type__" = Some (VStr "edge") ∧
            is_Some (o !! "source") ∧ is_Some (o !! "target")
  end.

End Queue.

(** ** goblin.driver.graph (src/goblin/driver/graph.py)

    The asynchronous remote graph, its one traversal strategy and its
    traversals.  Graph objects are mutable and shared by reference between
    the caller and the traversals spawned from them, so they live in a heap;
    the remote connection is an external object whose state is part of the
    world. *)
Module Graph.
Section Graph.

(** [World] is the state of the transport, [Resp] what a submission yields,
    [Bytecode] the step sequence of a traversal. *)
Context {World Resp Bytecode : Type}.

(** The translator a graph is built with: [translate(bytecode)] and
    [target_language]. *)
Record translator := {
  translate : Bytecode → Script;
  target_language : string;
}.

(** The remote connection: [url], [submit(script, bindings=, lang=)] and
    [close()]. *)
Record connection := {
  url : string;
  conn_submit : Script → Bindings → string → World → (exn + Resp) * World;
  conn_close : World → (exn + unit) * World;
}.

(** The strategy classes of the module: there is one. *)
Inductive strategy := AsyncRemoteStrategy.

(** What [graph_traversal] can name: the class of this module, or one the
    caller brings. *)
Inductive traversal_class := AsyncGraphTraversal | CustomTraversal (name : string).

(** An [AsyncRemoteGraph] object; [remote_connection] is [None] once the
    graph is closed. *)
Record remote_graph := {
  traversal_strategy : strategy;
  graph_translator : translator;
  remote_connection : option connection;
  graph_traversal : traversal_class;
}.

(** The attributes of a traversal that [apply], [next] and [__repr__] read. *)
Record traversal_obj := {
  t_graph : ref;
  t_strategies : strategy;
  t_bytecode : Bytecode;
  t_bindings : Bindings;
}.

(** Ghost log of the calls that reached a connection, by its url. *)
Inductive call :=
| Submitted (to : string) (script : Script) (bindings : Bindings) (lang : string)
| Closed (to : string).

Record gstate := GState {
  graphs : gmap ref remote_graph;
  gworld : World;
  calls : list call;
}.

Definition G (A : Type) : Type := gstate → outcome A * gstate.

#[global] Instance G_ret : MRet G := λ A a s, (Ok a, s).
#[global] Instance G_bind : MBind G := λ A B f m s,
  match m s with
  | (Ok a, s') => f a s'
  | (Raise e, s') => (Raise e, s')
  | (Diverged, s') => (Diverged, s')
  end.

Definition fail {A} (e : exn) : G A := λ s, (Raise e, s).

#[global] Instance remote_graph_inhabited : Inhabited remote_graph :=
  populate {| traversal_strategy := AsyncRemoteStrategy;
              graph_translator := {| translate := λ _, ""; target_language := "" |};
              remote_connection := None;
              graph_traversal := AsyncGraphTraversal |}.

(** Reading the object a reference stands for. *)
Definition deref (g : ref) : G remote_graph := λ s, (Ok (graphs s !!! g), s).

(** [object.remote_connection.<attr>]: on [None] the attribute lookup fails. *)
Definition connection_of (gr : remote_graph) (attr : string) : G connection :=
  match remote_connection gr with
  | Some c => mret c
  | None => fail (AttributeError attr)
  end.

(** [await connection.submit(script, bindings=bindings, lang=lang)] *)
Definition call_submit (c : connection) (script : Script) (bindings : Bindings)
    (lang : string) : G Resp := λ s,
  let '(r, w') := conn_submit c script bindings lang (gworld s) in
  let s' := GState (graphs s) w' (calls s ++ [Submitted (url c) script bindings lang]) in
  match r with
  | inl x => (Raise x, s')
  | inr resp => (Ok resp, s')
  end.

(** [await connection.close()] *)
Definition call_close (c : connection) : G unit := λ s,
  let '(r, w') := conn_close c (gworld s) in
  let s' := GState (graphs s) w' (calls s ++ [Closed (url c)]) in
  match r with
  | inl x => (Raise x, s')
  | inr _ => (Ok tt, s')
  end.

(** ** class AsyncRemoteStrategy *)

(** [apply(traversal)]: the callee [traversal.graph.remote_connection.submit]
    is looked up before the arguments are evaluated. *)
Definition apply (t : traversal_obj) : G Resp :=
  gr ← deref (t_graph t);
  c ← connection_of gr "submit";
  call_submit c (translate (graph_translator gr) (t_bytecode t)) (t_bindings t)
    (target_language (graph_translator gr)).

(** ** class AsyncGraphTraversal *)

(** [__repr__] *)
Definition traversal_repr (t : traversal_obj) : G string :=
  gr ← deref (t_graph t);
  mret (translate (graph_translator gr) (t_bytecode t)).

(** [toList] and [toSet] *)
Definition toList (t : traversal_obj) : G (list Resp) := fail NotImplementedError.
Definition toSet (t : traversal_obj) : G (list Resp) := fail NotImplementedError.

(** [next]: [await self.traversal_strategies.apply(self)] *)
Definition next (t : traversal_obj) : G Resp :=
  match t_strategies t with
  | AsyncRemoteStrategy => apply t
  end.

(** ** class AsyncRemoteGraph *)

(** [__init__(translator, remote_connection, *, graph_traversal=None)] *)
Definition AsyncRemoteGraph_init (tr : translator) (c : connection)
    (gt : option traversal_class) : remote_graph :=
  {| traversal_strategy := AsyncRemoteStrategy;
     graph_translator := tr;
     remote_connection := Some c;
     graph_traversal := match gt with None => AsyncGraphTraversal | Some cls => cls end |}.

(** [__repr__] *)
Definition graph_repr (g : ref) : G string :=
  gr ← deref g;
  c ← connection_of gr "url";
  mret ("remotegraph[" +:+ url c +:+ "]").

(** [self.remote_connection = None] *)
Definition clear_connection (g : ref) : G unit := λ s,
  let gr := graphs s !!! g in
  (Ok tt,
   GState (<[g := {| traversal_strategy := traversal_strategy gr;
                     graph_translator := graph_translator gr;
                     remote_connection := None;
                     graph_traversal := graph_traversal gr |}]> (graphs s))
          (gworld s) (calls s)).

(** [close()] *)
Definition close (g : ref) : G unit :=
  gr ← deref g;
  c ← connection_of gr "close";
  call_close c;;
  clear_connection g.

(** [__aenter__] and [__aexit__] *)
Definition aenter (g : ref) : G ref := mret g.
Definition aexit (g : ref) : G unit := close g.

(** [async with graph as g: body(g)]: the protocol runs [__aenter__], the
    body, then [__aexit__] whatever the body did; [__aexit__] returns [None],
    so a failure of the body is raised again after it, and a failure of
    [__aexit__] itself takes its place. *)
Definition async_with {A} (g : ref) (body : ref → G A) : G A := λ s,
  match aenter g s with
  | (Ok g', s0) =>
      match body g' s0 with
      | (Ok a, s1) =>
          match aexit g s1 with
          | (Ok _, s2) => (Ok a, s2)
          | (Raise x, s2) => (Raise x, s2)
          | (Diverged, s2) => (Diverged, s2)
          end
      | (Raise x, s1) =>
          match aexit g s1 with
          | (Ok _, s2) => (Raise x, s2)
          | (Raise y, s2) => (Raise y, s2)
          | (Diverged, s2) => (Diverged, s2)
          end
      | (Diverged, s1) => (Diverged, s1)
      end
  | (Raise x, s0) => (Raise x, s0)
  | (Diverged, s0) => (Diverged, s0)
  end.

(** The graph behind a reference is open: it holds a connection. *)
Definition open_with (g : ref) (c : connection) (s : gstate) : Prop :=
  remote_connection (graphs s !!! g) = Some c.

Definition closed (g : ref) (s : gstate) : Prop :=
  remote_connection (graphs s !!! g) = None.

End Graph.
End Graph.

(** ** A loopback connection

    A test double for the remote connection: it records the scripts it is
    sent and answers each with an acknowledgement. *)
Module Wire.

Definition World : Type := list Script.
Definition Resp : Type := string.
Definition Bytecode : Type := list string.

Definition groovy : Graph.translator (Bytecode:=Bytecode) :=
  {| Graph.translate := String.concat "."; Graph.target_language := "gremlin-groovy" |}.

Definition socket : Graph.connection (World:=World) (Resp:=Resp) :=
  {| Graph.url := "ws://localhost:8182/";
     Graph.conn_submit := λ script bindings lang w, (inr ("ok:" +:+ script), w ++ [script]);
     Graph.conn_close := λ w, (inr tt, w) |}.

(** A connection that cannot be closed. *)
Definition stuck_socket : Graph.connection (World:=World) (Resp:=Resp) :=
  {| Graph.url := "ws://localhost:8182/";
     Graph.conn_submit := λ script bindings lang w, (inr ("ok:" +:+ script), w ++ [script]);
     Graph.conn_close := λ w, (inl (TransportError "close failed"), w) |}.

(** One graph, object 0, just built on the given connection. *)
Definition one_graph (c : Graph.connection)
  : Graph.gstate (World:=World) (Resp:=Resp) (Bytecode:=Bytecode) :=
  Graph.GState {[ 0 := Graph.AsyncRemoteGraph_init groovy c None ]} [] [].

(** [g.V().count()] on graph 0. *)
Definition count_vertices : Graph.traversal_obj (Bytecode:=Bytecode) :=
  {| Graph.t_graph := 0; Graph.t_strategies := Graph.AsyncRemoteStrategy;
     Graph.t_bytecode := ["g"; "V()"; "count()"]; Graph.t_bindings := [] |}.

End Wire.

(** ** Verification *)

Ltac munfold :=
  cbv [save save_vertex save_edge _save_element execute_traversal engine_submit
       stream_fetch_data map_vertex_to_ogm map_edge_to_ogm map_to_ogm build
       get_vertex get_edge remove_vertex remove_edge _remove_element commit tx
       _wrap_in_tx py_call hasattr getattr current_set current_del arrive log
       add raise diverge get modify mbind mret M_bind M_ret].

Ltac msimpl :=
  cbv [fst snd _use_session _session _pending _current heap world trace attrs
       set_pending set_current set_heap set_world set_trace negb andb] in *.

(** One case split on an innermost scrutinee of the goal. *)
Ltac mcase :=
  match goal with
  | |- context [match ?x with _ => _ end] =>
      lazymatch x with
      | context [match _ with _ => _ end] => fail
      | _ => destruct x eqn:?
      end
  end.

Ltac mrun := msimpl; repeat (mcase; msimpl).

(** Runs forward along the path fixed by the equations in the context. *)
Ltac mfwd :=
  msimpl;
  repeat match goal with
    | H : ?x = _ |- context [match ?x with _ => _ end] => rewrite H; msimpl
    end.

(** Under [no_arrivals], the arrival lists named by the case splits are empty. *)
Ltac arrivals_nil H :=
  let Hs := fresh "Hs" in
  let Hf := fresh "Hf" in
  destruct H as [Hs Hf];
  repeat match goal with
    | E : submit _ ?a ?b ?c ?d = (_, ?es, _) |- _ =>
        let X := fresh in
        pose proof (Hs a b c d) as X; rewrite E in X; cbn in X; subst es
    | E : fetch_data _ ?a ?b = (_, ?es, _) |- _ =>
        let X := fresh in
        pose proof (Hf a b) as X; rewrite E in X; cbn in X; subst es
    end.

Section LogFacts.
Context {Stream Row : Type}.
Implicit Types (es : list ref) (t u : list (event Stream Row)).

Lemma saves_app t u : saves (t ++ u) = saves t ++ saves u.
Proof. apply omap_app. Qed.
Lemma adds_app t u : adds (t ++ u) = adds t ++ adds u.
Proof. apply omap_app. Qed.
Lemma builds_app t u : builds (t ++ u) = builds t ++ builds u.
Proof. apply omap_app. Qed.
Lemma executes_app t u : executes (t ++ u) = executes t ++ executes u.
Proof. apply omap_app. Qed.
Lemma submits_app t u : submits (t ++ u) = submits t ++ submits u.
Proof. apply omap_app. Qed.
Lemma fetches_app t u : fetches (t ++ u) = fetches t ++ fetches u.
Proof. apply omap_app. Qed.
Lemma maps_app t u : maps (t ++ u) = maps t ++ maps u.
Proof. apply omap_app. Qed.
Lemma txs_app t u : txs (t ++ u) = txs t + txs u.
Proof. unfold txs. by rewrite omap_app, length_app. Qed.

Lemma adds_arrived es : adds (EvAdd (Stream:=Stream) (Row:=Row) <$> es) = es.
Proof. induction es as [|e es IH]; simpl; [done|]. f_equal. exact IH. Qed.
Lemma saves_arrived es : saves (EvAdd (Stream:=Stream) (Row:=Row) <$> es) = [].
Proof. by induction es. Qed.
Lemma builds_arrived es : builds (EvAdd (Stream:=Stream) (Row:=Row) <$> es) = [].
Proof. by induction es. Qed.
Lemma executes_arrived es : executes (EvAdd (Stream:=Stream) (Row:=Row) <$> es) = [].
Proof. by induction es. Qed.
Lemma submits_arrived es : submits (EvAdd (Stream:=Stream) (Row:=Row) <$> es) = [].
Proof. by induction es. Qed.
Lemma fetches_arrived es : fetches (EvAdd (Stream:=Stream) (Row:=Row) <$> es) = [].
Proof. by induction es. Qed.
Lemma maps_arrived es : maps (EvAdd (Stream:=Stream) (Row:=Row) <$> es) = [].
Proof. by induction es. Qed.
Lemma txs_arrived es : txs (EvAdd (Stream:=Stream) (Row:=Row) <$> es) = 0.
Proof. unfold txs. by induction es. Qed.
End LogFacts.

(** Normalises a log built by successive appends and reads it. *)
Ltac log_read :=
  rewrite ?saves_app, ?adds_app, ?builds_app, ?executes_app, ?submits_app,
    ?fetches_app, ?maps_app, ?txs_app,
    ?saves_arrived, ?adds_arrived, ?builds_arrived, ?executes_arrived,
    ?submits_arrived, ?fetches_arrived, ?maps_arrived, ?txs_arrived;
  cbn [saves adds builds executes submits fetches maps txs omap
       option_bind app length Nat.add];
  rewrite ?app_nil_r.

(** Shows [t ++ a ++ ... = t ++ ?log] for a log written as nested appends. *)
Ltac log_ext := rewrite <- ?app_assoc; reflexivity.

Section Proofs.
Context {World Stream Row : Type}.
Variable C : collaborators World Stream Row.
Implicit Types (s : state World Stream Row) (e : ref) (t : traversal).

(** C8, as amended: on a backend that does not advertise transactions,
    [execute_traversal] compiles the traversal and submits the script
    unmodified, with its bindings and the session handle, exactly once; the
    outcome is whatever the engine gave: its stream, or its failure.  The
    core has no transaction wrap: [_wrap_in_tx] produces no script, however
    it is called. *)
Theorem execute_traversal_submits_unmodified t s :
  (transactions C = false →
   let script := (parse_traversal C t).1 in
   let bindings := (parse_traversal C t).2 in
   let reply := submit C script bindings (_session s) (world s) in
   ∃ s' lg,
     execute_traversal C t s =
       (match reply.1.1 with inl e => Raise e | inr stream => Ok stream end, s') ∧
     world s' = reply.2 ∧
     trace s' = trace s ++ lg ∧
     executes lg = [t] ∧
     submits lg = [(script, bindings, _session s)]) ∧
  (∀ args (s0 : state World Stream Row), ∃ x, _wrap_in_tx args s0 = (Raise x, s0)).
Proof.
  split.
  - intros Htx. destruct s as [us ss q cur h w tr]. munfold. rewrite Htx.
    destruct (parse_traversal C t) as [script bindings]. msimpl.
    destruct (submit C script bindings ss w) as [[r es] w']. msimpl.
    destruct r as [e|st]; do 2 eexists; (split; [reflexivity|]); msimpl;
      (split; [reflexivity|]); (split; [log_ext|]); by log_read.
  - intros [|script args] s0; eexists; reflexivity.
Qed.

(** What the condition of [execute_traversal] does on a backend that
    advertises transactions: [_use_session] holds a value, not a function, so
    calling it ends the call before anything is wrapped or submitted. *)
Lemma execute_traversal_with_transactions t s :
  transactions C = true →
  execute_traversal C t s =
    (Raise (TypeError ("'" +:+ type_name (_use_session s) +:+ "' object is not callable")),
     set_trace (trace s ++ [EvExecute t]) s).
Proof.
  intros Htx. destruct s as [us ss q cur h w tr]. munfold. rewrite Htx.
  by destruct (parse_traversal C t).
Qed.

(** [save] dispatches on the discriminator. *)
Lemma save_vertex_dispatch s e :
  attrs s e !! "__type__" = Some (VStr "vertex") →
  save C e s = save_vertex C e (set_trace (trace s ++ [EvSave e]) s).
Proof.
  intros Hty. destruct s as [us ss q cur h w tr].
  cbv [save getattr log modify mbind M_bind]. msimpl. by rewrite Hty.
Qed.

Lemma save_edge_dispatch s e :
  attrs s e !! "__type__" = Some (VStr "edge") →
  save C e s = save_edge C e (set_trace (trace s ++ [EvSave e]) s).
Proof.
  intros Hty. destruct s as [us ss q cur h w tr].
  cbv [save getattr log modify mbind M_bind]. msimpl. by rewrite Hty.
Qed.

(** *** The generic persist algorithm *)

(** What [_save_element] can and cannot touch, on every path: it logs no
    [save] and no finalize step, grows the queue only by arrivals, leaves
    the identity cache alone, never diverges, and changes the heap only at
    [element]: by the mapper's in-place merge when it returns it. *)
Lemma _save_element_inv k s e :
  let m := _save_element C e (build FetchById k) (build Create k)
             (build Update k) (map_to_ogm C k) in
  ∃ lg, trace (m s).2 = trace s ++ lg ∧
    saves lg = [] ∧ txs lg = 0 ∧
    _pending (m s).2 = _pending s ++ adds lg ∧
    (no_arrivals C → adds lg = []) ∧
    _current (m s).2 = _current s ∧
    match (m s).1 with
    | Ok v => v = e ∧ ∃ row o',
        heap (m s).2 = <[e := <["id" := row_id C row]> o']> (heap s)
    | Raise _ => ∀ e', e' ≠ e → heap (m s).2 !! e' = heap s !! e'
    | Diverged => False
    end.
Proof.
  intros m. subst m. destruct s as [us ss q cur h w tr]. munfold. mrun.
  all: eexists; split; [log_ext|]; log_read.
  all: repeat split; rewrite <- ?app_assoc; try reflexivity; eauto.
  all: try (intros e' Hne; by rewrite ?lookup_insert_ne).
  all: intros Hq; arrivals_nil Hq; reflexivity.
Qed.

(** The common body of [save_vertex] and [save_edge]: persist, then enter
    the result in the identity cache under its id. *)
Local Abbreviation persist k e :=
  (_save_element C e (build FetchById k) (build Create k) (build Update k)
     (map_to_ogm C k) ≫= λ result,
   getattr result "id" ≫= λ rid, current_set rid result ≫= λ _, mret result).

Lemma persist_inv k s e :
  ∃ lg, trace (persist k e s).2 = trace s ++ lg ∧
    saves lg = [] ∧ txs lg = 0 ∧
    _pending (persist k e s).2 = _pending s ++ adds lg ∧
    (no_arrivals C → adds lg = []) ∧
    match (persist k e s).1 with
    | Ok v => v = e ∧ ∃ row o',
        heap (persist k e s).2 = <[e := <["id" := row_id C row]> o']> (heap s) ∧
        _current (persist k e s).2 = <[dict_key (row_id C row) := e]> (_current s)
    | Raise _ =>
        (∀ e', e' ≠ e → heap (persist k e s).2 !! e' = heap s !! e') ∧
        _current (persist k e s).2 = _current s
    | Diverged => False
    end.
Proof.
  destruct (_save_element_inv k s e) as (lg & Htr & Hsv & Htx & Hq & Har & Hcur & Hres).
  cbv zeta in *. cbv [mbind M_bind].
  destruct (_save_element C e _ _ _ _ s) as [[v|x|] s1]; cbn [fst snd] in *;
    [|by exists lg|done].
  destruct Hres as (-> & row & mapping & Hheap).
  cbv [getattr attrs]. rewrite Hheap, lookup_total_insert_eq, lookup_insert_eq.
  destruct s1 as [us1 ss1 q1 cur1 h1 w1 tr1]. cbv [current_set modify mret M_ret].
  msimpl. exists lg. repeat split; try done. exists row, mapping.
  by rewrite Hheap, Hcur.
Qed.

Lemma save_edge_unfold s e :
  save_edge C e s =
    if bool_decide (is_Some (attrs s e !! "source")) &&
       bool_decide (is_Some (attrs s e !! "target"))
    then persist Edge e s
    else (Raise (Exception "Edges require source/target vetices"), s).
Proof.
  cbv [save_edge hasattr get mbind M_bind].
  by destruct (bool_decide _), (bool_decide _).
Qed.

Lemma save_unknown s e ty :
  attrs s e !! "__type__" = Some ty → ty ≠ VStr "vertex" → ty ≠ VStr "edge" →
  save C e s = (Raise (Exception "Unknown element type"),
                set_trace (trace s ++ [EvSave e]) s).
Proof.
  intros Hty Hv He. destruct s as [us ss q cur h w tr].
  cbv [save getattr log modify mbind M_bind]. msimpl. rewrite Hty.
  by rewrite !bool_decide_eq_false_2.
Qed.

Lemma save_untyped s e :
  attrs s e !! "__type__" = None →
  save C e s = (Raise (AttributeError "__type__"),
                set_trace (trace s ++ [EvSave e]) s).
Proof.
  intros Hty. destruct s as [us ss q cur h w tr].
  cbv [save getattr log modify mbind M_bind]. msimpl. by rewrite Hty.
Qed.

(** [save] on any element, on every path: one logged [save], the queue
    grows only by arrivals, and on success the element itself comes back,
    carries an id and is cached under it. *)
Lemma save_inv s e :
  ∃ lg, trace (save C e s).2 = trace s ++ lg ∧
    saves lg = [e] ∧ txs lg = 0 ∧
    _pending (save C e s).2 = _pending s ++ adds lg ∧
    (no_arrivals C → adds lg = []) ∧
    (save C e s).1 ≠ Diverged ∧
    (∀ v, (save C e s).1 = Ok v →
       v = e ∧ ∃ i, attrs (save C e s).2 e !! "id" = Some i ∧
                    _current (save C e s).2 !! dict_key i = Some e).
Proof.
  assert (Hp : ∀ k s0, trace s0 = trace s ++ [EvSave e] → _pending s0 = _pending s →
    ∃ lg, trace (persist k e s0).2 = trace s ++ lg ∧
      saves lg = [e] ∧ txs lg = 0 ∧
      _pending (persist k e s0).2 = _pending s ++ adds lg ∧
      (no_arrivals C → adds lg = []) ∧
      (persist k e s0).1 ≠ Diverged ∧
      (∀ v, (persist k e s0).1 = Ok v →
         v = e ∧ ∃ i, attrs (persist k e s0).2 e !! "id" = Some i ∧
                      _current (persist k e s0).2 !! dict_key i = Some e)).
  { intros k s0 Htr0 Hq0.
    destruct (persist_inv k s0 e) as (lg & Htr & Hsv & Htx & Hq & Har & Hres).
    exists ([EvSave e] ++ lg). rewrite Htr, Htr0, Hq, Hq0, <- app_assoc.
    rewrite saves_app, txs_app, adds_app, Hsv, Htx.
    repeat split; try done.
    - by destruct (persist k e s0).1.
    - destruct (persist k e s0).1 as [v'|x|]; [|done..].
      injection H as ->. by destruct Hres as [? _].
    - destruct (persist k e s0).1 as [v'|x|]; [|done..].
      destruct Hres as (_ & row & mapping & Hheap & Hcur).
      exists (row_id C row). unfold attrs.
      by rewrite Hheap, Hcur, lookup_total_insert_eq, !lookup_insert_eq. }
  assert (Hstop : ∀ x, save C e s = (Raise x, set_trace (trace s ++ [EvSave e]) s) →
    ∃ lg, trace (save C e s).2 = trace s ++ lg ∧
      saves lg = [e] ∧ txs lg = 0 ∧
      _pending (save C e s).2 = _pending s ++ adds lg ∧
      (no_arrivals C → adds lg = []) ∧
      (save C e s).1 ≠ Diverged ∧
      (∀ v, (save C e s).1 = Ok v →
         v = e ∧ ∃ i, attrs (save C e s).2 e !! "id" = Some i ∧
                      _current (save C e s).2 !! dict_key i = Some e)).
  { intros x ->. exists [EvSave e]. destruct s. msimpl.
    by rewrite app_nil_r. }
  destruct (attrs s e !! "__type__") as [ty|] eqn:Hty;
    [|by apply (Hstop _ (save_untyped _ _ Hty))].
  destruct (decide (ty = VStr "vertex")) as [->|Hv].
  { rewrite (save_vertex_dispatch _ _ Hty). apply (Hp Vertex); by destruct s. }
  destruct (decide (ty = VStr "edge")) as [->|He];
    [|by apply (Hstop _ (save_unknown _ _ _ Hty Hv He))].
  destruct (bool_decide (is_Some (attrs s e !! "source")) &&
            bool_decide (is_Some (attrs s e !! "target"))) eqn:Hg.
  - rewrite (save_edge_dispatch _ _ Hty), save_edge_unfold.
    replace (attrs (set_trace _ s) e) with (attrs s e) by (by destruct s).
    rewrite Hg. apply (Hp Edge); by destruct s.
  - apply (Hstop (Exception "Edges require source/target vetices")).
    rewrite (save_edge_dispatch _ _ Hty), save_edge_unfold.
    replace (attrs (set_trace _ s) e) with (attrs s e) by (by destruct s).
    by rewrite Hg.
Qed.

(** *** The drain loop *)

Lemma flush_step s elem rest n :
  _pending s = elem :: rest →
  flush C (S n) s =
    match save C elem (set_pending rest s) with
    | (Ok _, s1) => flush C n s1
    | (Raise x, s1) => (Raise x, s1)
    | (Diverged, s1) => (Diverged, s1)
    end.
Proof.
  intros Hq. cbn [flush]. cbv [mbind M_bind get modify]. rewrite Hq.
  by destruct (save C elem (set_pending rest s)) as [[?|?|] ?].
Qed.

Lemma flush_done s n : _pending s = [] → flush C (S n) s = (Ok tt, s).
Proof. intros Hq. cbn [flush]. cbv [mbind M_bind get]. by rewrite Hq. Qed.

Lemma flush_inv fuel : ∀ s r s',
  flush C fuel s = (r, s') → r ≠ Diverged →
  ∃ lg, trace s' = trace s ++ lg ∧
    saves lg ++ _pending s' = _pending s ++ adds lg ∧
    txs lg = 0 ∧
    (r = Ok tt → _pending s' = []) ∧
    (∀ x, r = Raise x →
       ∃ done elem s1, saves lg = done ++ [elem] ∧ save C elem s1 = (Raise x, s')).
Proof.
  induction fuel as [|n IH]; intros s r s' Hrun Hr.
  { cbv [flush diverge] in Hrun. by injection Hrun as <- <-. }
  destruct (_pending s) as [|elem rest] eqn:Hq.
  { rewrite (flush_done _ _ Hq) in Hrun. injection Hrun as <- <-.
    exists []. rewrite Hq, !app_nil_r. by repeat split. }
  rewrite (flush_step _ _ _ _ Hq) in Hrun.
  destruct (save_inv (set_pending rest s) elem)
    as (lg1 & Htr1 & Hsv1 & Htx1 & Hq1 & _ & Hd1 & _).
  destruct (save C elem (set_pending rest s)) as [[v|x|] s1] eqn:Hsave;
    cbn [fst snd] in *; [| |done].
  - destruct (IH _ _ _ Hrun Hr) as (lg2 & Htr2 & Hsv2 & Htx2 & Hok & Hfail).
    exists (lg1 ++ lg2). rewrite saves_app, adds_app, txs_app, Hsv1, Htx1, Htx2.
    split; [|split; [|split; [done|split; [done|]]]].
    + rewrite Htr2, Htr1. destruct s. msimpl. by rewrite app_assoc.
    + rewrite <- app_assoc, Hsv2, Hq1. destruct s. msimpl.
      by rewrite <- !app_assoc.
    + intros x Hx. destruct (Hfail x Hx) as (done & el & s0 & Hd & Hs0).
      exists (elem :: done), el, s0. by rewrite Hd.
  - injection Hrun as <- <-. exists lg1. rewrite Hsv1, Htx1.
    split; [|split; [|split; [done|split; [done|]]]].
    + rewrite Htr1. by destruct s.
    + rewrite Hq1. by destruct s.
    + intros y [= <-]. by exists [], elem, (set_pending rest s).
Qed.

Lemma flush_terminates fuel : ∀ s,
  no_arrivals C → length (_pending s) < fuel → (flush C fuel s).1 ≠ Diverged.
Proof.
  induction fuel as [|n IH]; intros s Hna Hlen; [lia|].
  destruct (_pending s) as [|elem rest] eqn:Hq.
  { by rewrite (flush_done _ _ Hq). }
  rewrite (flush_step _ _ _ _ Hq).
  destruct (save_inv (set_pending rest s) elem)
    as (lg1 & _ & _ & _ & Hq1 & Har & Hd1 & _).
  destruct (save C elem (set_pending rest s)) as [[v|x|] s1];
    cbn [fst snd] in *; [|done..].
  apply IH; [done|]. rewrite Hq1, (Har Hna), app_nil_r.
  destruct s. msimpl. cbn [length] in Hlen. lia.
Qed.

(** C4: [flush] pops the head of the queue and runs [save] on it to the end
    before it looks at the queue again, and stops at the first failure,
    which it propagates with the state the failing [save] left.  So for any
    run that comes back, the elements saved followed by those still pending
    are the initial queue followed by the arrivals, in that order; on a
    normal return every one of them, arrivals included, was saved and the
    queue is empty; on a failure the failing element is the last one saved
    (it is popped, its successors stay pending).  With no arrivals the loop
    comes back within one round per queued element. *)
Theorem flush_drains_fifo fuel s :
  (∀ elem rest n, _pending s = elem :: rest →
     flush C (S n) s =
       match save C elem (set_pending rest s) with
       | (Ok _, s1) => flush C n s1
       | (Raise x, s1) => (Raise x, s1)
       | (Diverged, s1) => (Diverged, s1)
       end) ∧
  (∀ r s', flush C fuel s = (r, s') → r ≠ Diverged →
     ∃ lg, trace s' = trace s ++ lg ∧
       saves lg ++ _pending s' = _pending s ++ adds lg ∧
       (r = Ok tt → _pending s' = []) ∧
       (∀ x, r = Raise x →
          ∃ done elem s1, saves lg = done ++ [elem] ∧
                          save C elem s1 = (Raise x, s'))) ∧
  (no_arrivals C → length (_pending s) < fuel → (flush C fuel s).1 ≠ Diverged).
Proof.
  split; [|split].
  - intros elem rest n. apply flush_step.
  - intros r s' Hrun Hr.
    destruct (flush_inv _ _ _ _ Hrun Hr) as (lg & ? & ? & _ & ? & ?).
    by exists lg.
  - apply flush_terminates.
Qed.

(** *** Commit *)

(** C9, as amended: [commit] flushes first and propagates a failure of the
    flush; when the flush comes back the queue is drained, and on a backend
    without transaction support no finalize step is invoked and [commit]
    raises [NotImplementedError].  [commit] never returns normally; with no
    arrivals it comes back, with an exception, within one round per queued
    element. *)
Theorem commit_flushes_then_unimplemented fuel s :
  (∀ v s', commit C fuel s ≠ (Ok v, s')) ∧
  (transactions C = false →
     (∀ s1, flush C fuel s = (Ok tt, s1) →
        commit C fuel s = (Raise NotImplementedError, s1) ∧
        _pending s1 = [] ∧ txs (trace s1) = txs (trace s)) ∧
     (∀ x s1, flush C fuel s = (Raise x, s1) → commit C fuel s = (Raise x, s1))) ∧
  (no_arrivals C → length (_pending s) < fuel →
     ∃ x s', commit C fuel s = (Raise x, s')).
Proof.
  assert (Hnever : ∀ v s', commit C fuel s ≠ (Ok v, s')).
  { intros v s'. cbv [commit mbind M_bind].
    destruct (flush C fuel s) as [[[]|x|] s1]; [|done..].
    destruct (transactions C); cbv [get py_call raise mret M_ret]; done. }
  split; [exact Hnever|]. split.
  - intros Htx. split.
    + intros s1 Hrun. cbv [commit mbind M_bind]. rewrite Hrun, Htx.
      destruct (flush_inv _ _ _ _ Hrun) as (lg & Htr & _ & Htxs & Hq & _); [done|].
      rewrite Htr, txs_app, Htxs. split; [done|]. split; [by apply Hq|lia].
    + intros x s1 Hrun. cbv [commit mbind M_bind]. by rewrite Hrun.
  - intros Hna Hlen. pose proof (flush_terminates fuel s Hna Hlen) as Hterm.
    destruct (commit C fuel s) as [[v|x|] s'] eqn:Hrun.
    + by destruct (Hnever v s').
    + by exists x, s'.
    + exfalso. revert Hrun. cbv [commit mbind M_bind].
      destruct (flush C fuel s) as [[[]|y|] s1]; [|done..].
      destruct (transactions C); cbv [get py_call raise mret M_ret]; done.
Qed.

(** *** Saving a vertex *)

Lemma remote_ok_inv t session w rows es w' :
  remote C t session w = (inr rows, es, w') →
  ∃ script bindings st es1 w1 es2,
    parse_traversal C t = (script, bindings) ∧
    submit C script bindings session w = (inr st, es1, w1) ∧
    fetch_data C st w1 = (inr rows, es2, w') ∧
    es = es1 ++ es2.
Proof.
  cbv [remote]. destruct (parse_traversal C t) as [script bindings] eqn:Hp.
  destruct (submit C script bindings session w) as [[r es1] w1] eqn:Hs.
  destruct r as [x|st]; [discriminate|].
  destruct (fetch_data C st w1) as [[d es2] w2] eqn:Hf.
  intros [= -> <- <-]. exists script, bindings, st, es1, w1, es2.
  repeat split; assumption || reflexivity.
Qed.

(** C1: saving a vertex that carries no id builds and executes exactly one
    traversal, the create one, and no fetch-by-id; what is submitted is the
    compiled create script, once (nothing at all on a backend that
    advertises transactions, where the call stops before the engine), and
    nothing is fetched that was not submitted nor mapped that was not
    fetched.  When the call returns, it returns the element itself: the
    create script has been submitted once, the stream the engine gave has
    been fetched once, the backend is where that round trip left it, the
    first row of the result has been merged by the mapper, once, onto the
    element, whose id is now the id of that row, and the cache holds the
    element under that id.  And the call does return whenever the backend
    answers the create with at least one row that the mapper can merge per
    the element's mapping. *)
Theorem save_vertex_without_identity s e :
  attrs s e !! "__type__" = Some (VStr "vertex") →
  attrs s e !! "id" = None →
  let create := Traversal Create Vertex e (attrs s e) in
  let script := (parse_traversal C create).1 in
  let bindings := (parse_traversal C create).2 in
  (∃ lg, trace (save C e s).2 = trace s ++ lg ∧
         builds lg = [create] ∧ executes lg = [create] ∧
         submits lg = (if transactions C then []
                       else [(script, bindings, _session s)]) ∧
         (length (fetches lg) ≤ length (submits lg))%nat ∧
         (length (maps lg) ≤ length (fetches lg))%nat) ∧
  (∀ v s', save C e s = (Ok v, s') →
     v = e ∧ transactions C = false ∧
     ∃ row rows es w' st mapping o' lg,
       remote C create (_session s) (world s) = (inr (row :: rows), es, w') ∧
       (submit C script bindings (_session s) (world s)).1.1 = inr st ∧
       attrs s e !! "__mapping__" = Some mapping ∧
       merge_fields C Vertex row mapping (attrs s e) = inr o' ∧
       trace s' = trace s ++ lg ∧
       submits lg = [(script, bindings, _session s)] ∧
       fetches lg = [st] ∧
       maps lg = [(Vertex, row, e)] ∧
       world s' = w' ∧
       attrs s' e = <["id" := row_id C row]> o' ∧
       attrs s' e !! "id" = Some (row_id C row) ∧
       _current s' = <[dict_key (row_id C row) := e]> (_current s) ∧
       _current s' !! dict_key (row_id C row) = Some e) ∧
  (transactions C = false →
   ∀ row rows es w',
     remote C create (_session s) (world s) = (inr (row :: rows), es, w') →
     ∀ mapping o',
       attrs s e !! "__mapping__" = Some mapping →
       merge_fields C Vertex row mapping (attrs s e) = inr o' →
       (save C e s).1 = Ok e).
Proof.
  intros Hty Hid create script bindings. subst create script bindings.
  rewrite (save_vertex_dispatch _ _ Hty). clear Hty.
  destruct s as [us ss q cur h w tr]. msimpl.
  split; [|split].
  - munfold. msimpl. rewrite Hid.
    rewrite (bool_decide_eq_false_2 (is_Some None)) by (apply is_Some_None).
    mrun.
    all: eexists; split; [log_ext|]; log_read.
    all: repeat split; try reflexivity; simpl; lia.
  - intros v s'. munfold. msimpl. rewrite Hid.
    rewrite (bool_decide_eq_false_2 (is_Some None)) by (apply is_Some_None).
    mrun. all: try discriminate.
    intros [=]; subst.
    rewrite lookup_total_insert_eq, lookup_insert_eq in *.
    match goal with H : Some _ = Some _ |- _ => injection H as <- end.
    split; [done|]. split; [done|]. eexists _, _, _, _, _, _, _, _.
    split; [cbv [remote]; by mfwd|].
    split; [reflexivity|]. split; [reflexivity|]. split; [eassumption|].
    split; [log_ext|]. log_read.
    repeat split; try reflexivity. by rewrite lookup_insert_eq.
  - intros Htx row rows es w' Hrem mapping o' Hm Hmerge.
    apply remote_ok_inv in Hrem
      as (script & bindings & st & es1 & w1 & es2 & Hp & Hs & Hf & ->).
    munfold. msimpl. rewrite Hid.
    rewrite (bool_decide_eq_false_2 (is_Some None)) by (apply is_Some_None).
    mfwd. by rewrite lookup_total_insert_eq, lookup_insert_eq.
Qed.

(** C2: saving a vertex that carries an id always starts with exactly one
    fetch-by-id traversal, followed by at most one more traversal, never a
    second fetch-by-id.  When the fetch has a result, exactly one traversal
    follows: the update one if the result has a row, the create one if it
    is empty.  When that final traversal has a result with a first row
    that the mapper can merge, this row is merged onto the element, in
    place, and the element is returned. *)
Theorem save_vertex_with_identity s e i :
  attrs s e !! "__type__" = Some (VStr "vertex") →
  attrs s e !! "id" = Some i →
  let fetch := Traversal FetchById Vertex e (attrs s e) in
  (∃ lg rest, trace (save C e s).2 = trace s ++ lg ∧
     builds lg = fetch :: rest ∧ (length rest ≤ 1)%nat ∧
     Forall (λ t, tr_intent t ≠ FetchById) rest ∧
     executes lg = builds lg) ∧
  (transactions C = false →
   ∀ found es1 w1,
     remote C fetch (_session s) (world s) = (inr found, es1, w1) →
     let next := Traversal (match found with [] => Create | _ :: _ => Update end)
                   Vertex e (attrs s e) in
     (∃ lg, trace (save C e s).2 = trace s ++ lg ∧
            builds lg = [fetch; next] ∧ executes lg = [fetch; next]) ∧
     (∀ row rows es2 w2 mapping o',
        remote C next (_session s) w1 = (inr (row :: rows), es2, w2) →
        attrs s e !! "__mapping__" = Some mapping →
        merge_fields C Vertex row mapping (attrs s e) = inr o' →
        ∃ s' lg, save C e s = (Ok e, s') ∧
          trace s' = trace s ++ lg ∧
          maps lg = [(Vertex, row, e)] ∧
          attrs s' e = <["id" := row_id C row]> o' ∧
          world s' = w2)).
Proof.
  intros Hty Hid fetch. subst fetch.
  rewrite (save_vertex_dispatch _ _ Hty). clear Hty.
  destruct s as [us ss q cur h w tr]. msimpl.
  assert (Hhas : bool_decide (is_Some ((h !!! e) !! "id")) = true)
    by (apply bool_decide_eq_true_2; eauto).
  split.
  - munfold. msimpl. rewrite Hhas. mrun.
    all: eexists _, _; split; [log_ext|]; log_read.
    all: split; [reflexivity|]; split; [cbn; lia|].
    all: split; [repeat constructor; discriminate|reflexivity].
  - intros Htx found es1 w1 Hrem.
    apply remote_ok_inv in Hrem
      as (script & bindings & st & esa & wa & esb & Hp & Hs & Hf & ->).
    split.
    + munfold. msimpl. rewrite Hhas. mfwd. destruct found; mrun.
      all: eexists; split; [log_ext|]; by log_read.
    + intros row rows es2 w2 mapping o' Hrem2 Hm Hmerge.
      apply remote_ok_inv in Hrem2
        as (script2 & bindings2 & st2 & esc & wc & esd & Hp2 & Hs2 & Hf2 & ->).
      munfold. msimpl. rewrite Hhas. mfwd. destruct found; mfwd.
      all: rewrite lookup_total_insert_eq, lookup_insert_eq.
      all: eexists _, _; split; [reflexivity|]; msimpl.
      all: split; [log_ext|]; log_read.
      all: by rewrite lookup_total_insert_eq.
Qed.

(** *** Fetching and removing *)

(** C6: when the fetch-by-id result is the empty row sequence, [get_vertex]
    and [get_edge] return [None] normally; the mapper is not invoked and
    neither the heap nor the identity cache changes. *)
Theorem get_empty_is_absent k s e :
  let get_element := match k with Vertex => get_vertex C | Edge => get_edge C end in
  transactions C = false →
  ∀ es w',
    remote C (Traversal FetchById k e (attrs s e)) (_session s) (world s)
      = (inr [], es, w') →
    ∃ s' lg, get_element e s = (Ok None, s') ∧
      trace s' = trace s ++ lg ∧ maps lg = [] ∧
      heap s' = heap s ∧ _current s' = _current s ∧ world s' = w'.
Proof.
  intros get_element Htx es w' Hrem. subst get_element.
  apply remote_ok_inv in Hrem
    as (script & bindings & st & es1 & w1 & es2 & Hp & Hs & Hf & ->).
  destruct s as [us ss q cur h w tr].
  destruct k; munfold; mfwd.
  all: eexists _, _; split; [reflexivity|]; msimpl.
  all: split; [log_ext|]; by log_read.
Qed.

(** C7, as amended: whatever [get_vertex] or [get_edge] returns as an
    element is the very object it was given; when the fetch-by-id result
    has a first row, that row is merged onto the argument in place, no
    other object is created or changed, and the argument is returned. *)
Theorem get_merges_onto_argument k s e :
  let get_element := match k with Vertex => get_vertex C | Edge => get_edge C end in
  (∀ v s', get_element e s = (Ok (Some v), s') → v = e) ∧
  (transactions C = false →
   ∀ row rows es w' mapping o',
     remote C (Traversal FetchById k e (attrs s e)) (_session s) (world s)
       = (inr (row :: rows), es, w') →
     attrs s e !! "__mapping__" = Some mapping →
     merge_fields C k row mapping (attrs s e) = inr o' →
     ∃ s' lg, get_element e s = (Ok (Some e), s') ∧
       trace s' = trace s ++ lg ∧ maps lg = [(k, row, e)] ∧
       heap s' = <[e := <["id" := row_id C row]> o']> (heap s)).
Proof.
  intros get_element. subst get_element.
  destruct s as [us ss q cur h w tr]. split.
  - intros v s'. destruct k; munfold; mrun; intros [=]; by subst.
  - intros Htx row rows es w' mapping o' Hrem Hm Hmerge.
    apply remote_ok_inv in Hrem
      as (script & bindings & st & es1 & w1 & es2 & Hp & Hs & Hf & ->).
    destruct k; munfold; mfwd.
    all: eexists _, _; split; [reflexivity|]; msimpl.
    all: split; [log_ext|]; by log_read.
Qed.

(** C10: removing an element whose id is not a key of the identity cache, no
    key of the cache being equal to it, never returns normally; and when the
    backend accepts the delete traversal and its result is fetched, the call
    ends in [KeyError] on that id: the script has been submitted, the result
    fetched and the backend has moved on, while cache and heap are as
    before. *)
Theorem remove_uncached_raises_after_delete k s e i :
  let remove_element :=
    match k with Vertex => remove_vertex C | Edge => remove_edge C end in
  let del := Traversal Delete k e (attrs s e) in
  attrs s e !! "id" = Some i →
  _current s !! dict_key i = None →
  (∀ rows s', remove_element e s ≠ (Ok rows, s')) ∧
  (transactions C = false →
   ∀ rows es w',
     remote C del (_session s) (world s) = (inr rows, es, w') →
     ∃ s' lg, remove_element e s = (Raise (KeyError i), s') ∧
       trace s' = trace s ++ lg ∧
       builds lg = [del] ∧
       submits lg = [((parse_traversal C del).1, (parse_traversal C del).2, _session s)] ∧
       length (fetches lg) = 1 ∧
       world s' = w' ∧ _current s' = _current s ∧ heap s' = heap s).
Proof.
  intros remove_element del Hid Hcur. subst remove_element del.
  destruct s as [us ss q cur h w tr]. msimpl. split.
  - intros rows s'. destruct k; munfold; mrun; intros ?; simplify_eq.
  - intros Htx rows es w' Hrem.
    apply remote_ok_inv in Hrem
      as (script & bindings & st & es1 & w1 & es2 & Hp & Hs & Hf & ->).
    destruct k; munfold; mfwd.
    all: eexists _, _; split; [reflexivity|]; msimpl.
    all: split; [log_ext|]; by log_read.
Qed.

(** C5, as amended: after a [save] that returns, the element returned is the
    element saved and the cache holds it under its id; after a remove that
    returns, the element's id is not a key of the cache; [get_vertex] and
    [get_edge] never write the cache: it maps the same ids to the same
    objects as before.  Keys are taken as the dictionary takes them. *)
Theorem identity_cache_after_operations s e :
  (∀ v s', save C e s = (Ok v, s') →
     v = e ∧ ∃ i, attrs s' e !! "id" = Some i ∧
                  _current s' !! dict_key i = Some e) ∧
  (∀ k rows s',
     (match k with Vertex => remove_vertex C | Edge => remove_edge C end) e s
       = (Ok rows, s') →
     ∃ i, attrs s' e !! "id" = Some i ∧ _current s' !! dict_key i = None ∧
          _current s' = delete (dict_key i) (_current s)) ∧
  (∀ k, _current ((match k with Vertex => get_vertex C | Edge => get_edge C end) e s).2
        = _current s).
Proof.
  split; [|split].
  - intros v s' Hrun. destruct (save_inv s e) as (_ & _ & _ & _ & _ & _ & _ & H).
    rewrite Hrun in H. by apply H.
  - intros k rows s'. destruct s as [us ss q cur h w tr].
    destruct k; munfold; mrun; intros [=]; subst; msimpl.
    all: eexists; split; [eassumption|]; split; [apply lookup_delete_eq|done].
  - intros k. destruct s as [us ss q cur h w tr].
    destruct k; munfold; mrun; reflexivity.
Qed.

(** C3, as amended: an edge that lacks the [source] or the [target]
    attribute is rejected by [save] before anything is built or executed:
    the only trace of the call is the entry into [save] itself.  An edge
    that has both attributes passes the guard whatever their values, [None]
    included: a traversal is then built and handed to [execute_traversal]. *)
Theorem save_edge_endpoint_guard s e :
  attrs s e !! "__type__" = Some (VStr "edge") →
  ((attrs s e !! "source" = None ∨ attrs s e !! "target" = None) →
     save C e s = (Raise (Exception "Edges require source/target vetices"),
                   set_trace (trace s ++ [EvSave e]) s)) ∧
  (is_Some (attrs s e !! "source") → is_Some (attrs s e !! "target") →
     ∃ log, trace (save C e s).2 = trace s ++ log ∧
            builds log ≠ [] ∧ executes log ≠ []).
Proof.
  intros Hty. rewrite (save_edge_dispatch _ _ Hty). clear Hty.
  destruct s as [us ss q cur h w tr]. split.
  - intros Hmiss. munfold. msimpl.
    destruct Hmiss as [Hm|Hm]; rewrite Hm;
      rewrite (bool_decide_eq_false_2 (is_Some None)) by (apply is_Some_None);
      [|destruct (bool_decide _)]; reflexivity.
  - intros Hs Ht. munfold. msimpl.
    rewrite !bool_decide_eq_true_2 by assumption. msimpl.
    mrun. all: (eexists; split; [log_ext|]; split; log_read; discriminate).
Qed.

End Proofs.

(** ** The statements at work on the canned-reply engine *)

Local Abbreviation E := (Mock.engine false).
Local Abbreviation Etx := (Mock.engine true).

(** C1 at work: a vertex without id, and the backend answers the create
    traversal with row 7: one script goes out, its stream is fetched, row 7
    is mapped onto the vertex, which comes back with id 7, cached under 7. *)
Lemma save_vertex_without_identity_witness :
  (save E 0 Mock.new_vertex).1 = Ok 0 ∧
  transactions E = false ∧
  ∃ row rows es w' st mapping o' lg,
    remote E (Traversal Create Vertex 0 (attrs Mock.new_vertex 0))
      (_session Mock.new_vertex) (world Mock.new_vertex)
      = (inr (row :: rows), es, w') ∧
    (submit E (parse_traversal E (Traversal Create Vertex 0 (attrs Mock.new_vertex 0))).1
       (parse_traversal E (Traversal Create Vertex 0 (attrs Mock.new_vertex 0))).2
       (_session Mock.new_vertex) (world Mock.new_vertex)).1.1 = inr st ∧
    attrs Mock.new_vertex 0 !! "__mapping__" = Some mapping ∧
    merge_fields E Vertex row mapping (attrs Mock.new_vertex 0) = inr o' ∧
    trace (save E 0 Mock.new_vertex).2 = trace Mock.new_vertex ++ lg ∧
    submits lg =
      [((parse_traversal E (Traversal Create Vertex 0 (attrs Mock.new_vertex 0))).1,
        (parse_traversal E (Traversal Create Vertex 0 (attrs Mock.new_vertex 0))).2,
        _session Mock.new_vertex)] ∧
    fetches lg = [st] ∧
    maps lg = [(Vertex, row, 0)] ∧
    world (save E 0 Mock.new_vertex).2 = w' ∧
    attrs (save E 0 Mock.new_vertex).2 0 = <["id" := row_id E row]> o' ∧
    attrs (save E 0 Mock.new_vertex).2 0 !! "id" = Some (row_id E row) ∧
    _current (save E 0 Mock.new_vertex).2
      = <[dict_key (row_id E row) := 0]> (_current Mock.new_vertex) ∧
    _current (save E 0 Mock.new_vertex).2 !! dict_key (row_id E row) = Some 0.
Proof.
  destruct (save_vertex_without_identity E Mock.new_vertex 0) as (_ & Hret & Hok);
    [vm_compute; reflexivity..|].
  assert (Hrun : (save E 0 Mock.new_vertex).1 = Ok 0).
  { apply (Hok eq_refl Mock.row7 [] [] [] ltac:(vm_compute; reflexivity)
             VNone (<["name" := VStr "ada"]> Mock.ada)); vm_compute; reflexivity. }
  split; [exact Hrun|].
  apply (Hret 0 (save E 0 Mock.new_vertex).2). vm_compute. reflexivity.
Defined.

(** C1, the run itself: the script, the stream, the row and where they
    leave the backend, the vertex and the cache. *)
Example save_new_vertex_round_trip :
  submits (trace (save E 0 Mock.new_vertex).2) = [("addV", [], VNone)] ∧
  fetches (trace (save E 0 Mock.new_vertex).2) = [[Mock.row7]] ∧
  maps (trace (save E 0 Mock.new_vertex).2) = [(Vertex, Mock.row7, 0)] ∧
  world (save E 0 Mock.new_vertex).2 = [] ∧
  attrs (save E 0 Mock.new_vertex).2 0 !! "id" = Some (VStr "7") ∧
  _current (save E 0 Mock.new_vertex).2 !! dict_key (VStr "7") = Some 0.
Proof. vm_compute. repeat split; reflexivity. Qed.

(** The same vertex through the queue: [add], then [flush]: one create
    script goes out and the merged vertex sits in the cache under id 7. *)
Example flush_creates_and_caches :
  (flush E 2 (Mock.queued [0] Mock.new_vertex)).1 = Ok tt ∧
  submits (trace (flush E 2 (Mock.queued [0] Mock.new_vertex)).2) = [("addV", [], VNone)] ∧
  _current (flush E 2 (Mock.queued [0] Mock.new_vertex)).2 !! dict_key (VStr "7") = Some 0 ∧
  attrs (flush E 2 (Mock.queued [0] Mock.new_vertex)).2 0 !! "id" = Some (VStr "7").
Proof. vm_compute. repeat split; reflexivity. Qed.

(** C2 at work: a vertex with id 3 that the backend knows: fetch, update,
    and the row of the update is merged onto the vertex. *)
Lemma save_vertex_with_identity_witness :
  ∃ s' lg, save E 0 Mock.known_vertex = (Ok 0, s') ∧
    trace s' = trace Mock.known_vertex ++ lg ∧
    maps lg = [(Vertex, Mock.row3, 0)] ∧
    attrs s' 0 = <["id" := VStr "3"]> (<["name" := VStr "new"]> Mock.bob) ∧
    world s' = [].
Proof.
  destruct (save_vertex_with_identity E Mock.known_vertex 0 (VStr "3"))
    as (_ & Hfound); [vm_compute; reflexivity..|].
  destruct (Hfound eq_refl [Mock.row3] [] [([Mock.row3], [])]) as (_ & Hmerge);
    [vm_compute; reflexivity|].
  apply (Hmerge Mock.row3 [] [] [] VNone); vm_compute; reflexivity.
Defined.

(** C2, the other branch: the backend no longer knows id 3, so the second
    traversal is the create one. *)
Example save_vanished_vertex_creates :
  tr_intent <$> builds (trace (save E 0 Mock.vanished_vertex).2) = [FetchById; Create].
Proof. vm_compute. reflexivity. Qed.

(** C3 as stated fails: an edge whose [source] attribute is [None] passes the
    guard; it is created on the backend and comes back saved. *)
Lemma save_edge_none_source_counterexample :
  attrs Mock.edge_with_none 1 !! "__type__" = Some (VStr "edge") ∧
  attrs Mock.edge_with_none 1 !! "source" = Some VNone ∧
  (save E 1 Mock.edge_with_none).1 = Ok 1 ∧
  length (builds (trace (save E 1 Mock.edge_with_none).2)) = 1 ∧
  length (executes (trace (save E 1 Mock.edge_with_none).2)) = 1 ∧
  submits (trace (save E 1 Mock.edge_with_none).2) = [("addE", [], VNone)].
Proof. vm_compute. repeat split; reflexivity. Qed.

(** C3, as amended, at work: an edge with no [source] attribute at all. *)
Lemma save_edge_endpoint_guard_witness :
  save E 1 Mock.edge_without_source =
    (Raise (Exception "Edges require source/target vetices"),
     set_trace (trace Mock.edge_without_source ++ [EvSave 1]) Mock.edge_without_source) ∧
  ∃ lg, trace (save E 1 Mock.edge_with_none).2 = trace Mock.edge_with_none ++ lg ∧
        builds lg ≠ [] ∧ executes lg ≠ [].
Proof.
  split.
  - apply (save_edge_endpoint_guard E Mock.edge_without_source 1);
      [vm_compute; reflexivity|left; vm_compute; reflexivity].
  - apply (save_edge_endpoint_guard E Mock.edge_with_none 1);
      [vm_compute; reflexivity|eexists; vm_compute; reflexivity..].
Defined.

(** C4 at work.  Queue [0; 1; 2] where element 1 is an edge without source:
    0 is saved, the save of 1 fails, 2 is never saved and stays pending.
    And a queue [0] where element 1 is added while 0 is being saved: both are
    saved, in that order, before [flush] returns with the queue empty. *)
Lemma flush_drains_fifo_witness :
  (∃ lg, trace (flush E 4 Mock.queue_abc).2 = trace Mock.queue_abc ++ lg ∧
     saves lg ++ [2] = [0; 1; 2] ++ adds lg ∧
     ∃ done elem s1, saves lg = done ++ [elem] ∧
       save E elem s1 =
         (Raise (Exception "Edges require source/target vetices"),
          (flush E 4 Mock.queue_abc).2)) ∧
  (∃ lg, trace (flush E 4 Mock.queue_growing).2 = trace Mock.queue_growing ++ lg ∧
     saves lg ++ _pending (flush E 4 Mock.queue_growing).2 = [0] ++ adds lg ∧
     _pending (flush E 4 Mock.queue_growing).2 = [] ∧ adds lg = [1]) ∧
  (flush Mock.lone_engine 4 Mock.queue_abc).1 ≠ Diverged.
Proof.
  split; [|split].
  - destruct (flush_drains_fifo E 4 Mock.queue_abc) as (_ & Hrun & _).
    destruct (Hrun (Raise (Exception "Edges require source/target vetices"))
                (flush E 4 Mock.queue_abc).2) as (lg & Htr & Hfifo & _ & Hfail);
      [vm_compute; reflexivity|discriminate|].
    exists lg. split; [exact Htr|]. split; [exact Hfifo|]. by apply Hfail.
  - destruct (flush_drains_fifo E 4 Mock.queue_growing) as (_ & Hrun & _).
    destruct (Hrun (Ok tt) (flush E 4 Mock.queue_growing).2)
      as (lg & Htr & Hfifo & Hempty & _); [vm_compute; reflexivity|discriminate|].
    exists lg. split; [exact Htr|]. split; [exact Hfifo|].
    split; [by apply Hempty|].
    apply (f_equal adds) in Htr. rewrite adds_app in Htr.
    vm_compute in Htr. exact (eq_sym Htr).
  - apply (flush_drains_fifo Mock.lone_engine 4 Mock.queue_abc); [|vm_compute; lia].
    split; [intros ? ? ? [|[? ?] ?]|intros]; reflexivity.
Defined.

(** C4: the same two runs, read off the log. *)
Example flush_abc_stops_at_failure :
  saves (trace (flush E 4 Mock.queue_abc).2) = [0; 1] ∧
  _pending (flush E 4 Mock.queue_abc).2 = [2].
Proof. vm_compute. split; reflexivity. Qed.

Example flush_saves_arrivals :
  saves (trace (flush E 4 Mock.queue_growing).2) = [0; 1] ∧
  (flush E 4 Mock.queue_growing).1 = Ok tt.
Proof. vm_compute. split; reflexivity. Qed.

(** C5 as stated fails for the get operations.  The cache holds object 0
    under id 3; [get_vertex] on another object with id 3 succeeds and merges
    the fresh row onto that object, and the cache still maps 3 to object 0,
    with its old fields. *)
Lemma get_leaves_cache_stale_counterexample :
  (get_vertex E 1 Mock.stale_cache).1 = Ok (Some 1) ∧
  attrs (get_vertex E 1 Mock.stale_cache).2 1 !! "id" = Some (VStr "3") ∧
  attrs (get_vertex E 1 Mock.stale_cache).2 1 !! "name" = Some (VStr "new") ∧
  _current (get_vertex E 1 Mock.stale_cache).2 !! dict_key (VStr "3") = Some 0 ∧
  attrs (get_vertex E 1 Mock.stale_cache).2 0 !! "name" = Some (VStr "old").
Proof. vm_compute. repeat split; reflexivity. Qed.

(** C5, as amended, at work: after saving vertex 0 the cache holds it under
    its id; after removing the cached object 0 of [stale_cache] its id is no
    longer a key. *)
Lemma identity_cache_after_operations_witness :
  (∃ i, attrs (save E 0 Mock.new_vertex).2 0 !! "id" = Some i ∧
        _current (save E 0 Mock.new_vertex).2 !! dict_key i = Some 0) ∧
  (∃ i, attrs (remove_vertex E 0 Mock.stale_cache).2 0 !! "id" = Some i ∧
        _current (remove_vertex E 0 Mock.stale_cache).2 !! dict_key i = None ∧
        _current (remove_vertex E 0 Mock.stale_cache).2
          = delete (dict_key i) (_current Mock.stale_cache)).
Proof.
  split.
  - destruct (identity_cache_after_operations E Mock.new_vertex 0) as (Hsave & _).
    apply (Hsave 0 (save E 0 Mock.new_vertex).2). vm_compute. reflexivity.
  - destruct (identity_cache_after_operations E Mock.stale_cache 0) as (_ & Hrm & _).
    apply (Hrm Vertex [Mock.row3] (remove_vertex E 0 Mock.stale_cache).2).
    vm_compute. reflexivity.
Defined.

(** C6 at work: an edge with id 3 and a backend that returns zero rows. *)
Lemma get_empty_is_absent_witness :
  ∃ s' lg, get_edge E 0 Mock.absent_edge = (Ok None, s') ∧
    trace s' = trace Mock.absent_edge ++ lg ∧ maps lg = [] ∧
    heap s' = heap Mock.absent_edge ∧
    _current s' = _current Mock.absent_edge ∧ world s' = [].
Proof.
  apply (get_empty_is_absent E Edge Mock.absent_edge 0 eq_refl []).
  vm_compute. reflexivity.
Defined.

(** C7 as stated fails: [get_vertex] returns the object it was given, and
    that object has changed. *)
Lemma get_returns_argument_counterexample :
  (get_vertex E 0 Mock.known_vertex).1 = Ok (Some 0) ∧
  attrs Mock.known_vertex 0 !! "name" = Some (VStr "old") ∧
  attrs (get_vertex E 0 Mock.known_vertex).2 0 !! "name" = Some (VStr "new") ∧
  dom (heap (get_vertex E 0 Mock.known_vertex).2) = dom (heap Mock.known_vertex).
Proof. vm_compute. repeat split; reflexivity. Qed.

(** C7, as amended, at work on the same call. *)
Lemma get_merges_onto_argument_witness :
  ∃ s' lg, get_vertex E 0 Mock.known_vertex = (Ok (Some 0), s') ∧
    trace s' = trace Mock.known_vertex ++ lg ∧
    maps lg = [(Vertex, Mock.row3, 0)] ∧
    heap s' = <[0 := <["id" := VStr "3"]> (<["name" := VStr "new"]> Mock.bob)]>
                (heap Mock.known_vertex).
Proof.
  destruct (get_merges_onto_argument E Vertex Mock.known_vertex 0) as (_ & Hget).
  apply (Hget eq_refl Mock.row3 [] [] [([Mock.row3], [])] VNone);
    vm_compute; reflexivity.
Defined.

(** C8 as stated fails: on a backend that advertises transactions, with a
    session that is not session-scoped, nothing is wrapped and nothing is
    submitted: the call ends in [TypeError]. *)
Lemma execute_traversal_transactions_counterexample :
  transactions Etx = true ∧
  _use_session Mock.new_vertex = VBool false ∧
  (execute_traversal Etx (Traversal Create Vertex 0 Mock.ada) Mock.new_vertex).1
    = Raise (TypeError "'bool' object is not callable") ∧
  submits (trace (execute_traversal Etx (Traversal Create Vertex 0 Mock.ada)
                    Mock.new_vertex).2) = [].
Proof. vm_compute. repeat split; reflexivity. Qed.

(** C8, as amended, at work: without transaction support the compiled script
    goes out as it is. *)
Lemma execute_traversal_submits_unmodified_witness :
  ∃ s' lg,
    execute_traversal E (Traversal Create Vertex 0 Mock.ada) Mock.new_vertex
      = (Ok [Mock.row7], s') ∧
    world s' = [] ∧
    trace s' = trace Mock.new_vertex ++ lg ∧
    executes lg = [Traversal Create Vertex 0 Mock.ada] ∧
    submits lg = [("addV", [], VNone)].
Proof.
  apply (proj1 (execute_traversal_submits_unmodified E
                  (Traversal Create Vertex 0 Mock.ada) Mock.new_vertex) eq_refl).
Defined.

(** C9 as stated fails: with nothing pending and no transaction support,
    [commit] does not return normally. *)
Lemma commit_raises_counterexample :
  transactions E = false ∧
  _pending Mock.nothing_pending = [] ∧
  commit E 1 Mock.nothing_pending = (Raise NotImplementedError, Mock.nothing_pending).
Proof. vm_compute. repeat split; reflexivity. Qed.

(** C9, as amended, at work: the queue holding vertex 0 is flushed, then
    [commit] raises. *)
Lemma commit_flushes_then_unimplemented_witness :
  commit E 2 (Mock.queued [0] Mock.new_vertex)
    = (Raise NotImplementedError, (flush E 2 (Mock.queued [0] Mock.new_vertex)).2) ∧
  _pending (flush E 2 (Mock.queued [0] Mock.new_vertex)).2 = [] ∧
  txs (trace (flush E 2 (Mock.queued [0] Mock.new_vertex)).2)
    = txs (trace (Mock.queued [0] Mock.new_vertex)).
Proof.
  destruct (commit_flushes_then_unimplemented E 2 (Mock.queued [0] Mock.new_vertex))
    as (_ & Hflush & _).
  destruct (Hflush eq_refl) as (Hok & _).
  apply Hok. vm_compute. reflexivity.
Defined.

(** C10 needs no key of the cache to be equal to the id: a vertex whose id
    is [True], cached under [1], is removed, and the call returns. *)
Example remove_equal_key_returns :
  attrs Mock.equal_key 0 !! "id" = Some (VBool true) ∧
  _current Mock.equal_key !! dict_key (VInt 1) = Some 0 ∧
  (remove_vertex E 0 Mock.equal_key).1 = Ok [] ∧
  _current (remove_vertex E 0 Mock.equal_key).2 !! dict_key (VInt 1) = None.
Proof. vm_compute. repeat split; reflexivity. Qed.

(** C10 at work: vertex 0 has id 3, the cache is empty, the backend accepts
    the delete: the reply is consumed and the call ends in [KeyError]. *)
Lemma remove_uncached_raises_after_delete_witness :
  ∃ s' lg, remove_vertex E 0 Mock.uncached_vertex = (Raise (KeyError (VStr "3")), s') ∧
    trace s' = trace Mock.uncached_vertex ++ lg ∧
    builds lg = [Traversal Delete Vertex 0 Mock.bob] ∧
    submits lg = [("dropV", [("id", VStr "3")], VNone)] ∧
    length (fetches lg) = 1 ∧
    world s' = [] ∧ _current s' = ∅ ∧ heap s' = heap Mock.uncached_vertex.
Proof.
  destruct (remove_uncached_raises_after_delete E Vertex Mock.uncached_vertex 0 (VStr "3"))
    as (_ & Hrm); [vm_compute; reflexivity..|].
  apply (Hrm eq_refl [] [] []). vm_compute. reflexivity.
Defined.

(** ** Beyond the claims: the rest of the session *)

Section Frames.
Context {World Stream Row : Type}.
Variable C : collaborators World Stream Row.
Implicit Types (s : state World Stream Row) (e : ref) (k : kind).

Local Abbreviation persist k e :=
  (_save_element C e (build FetchById k) (build Create k) (build Update k)
     (map_to_ogm C k) ≫= λ result,
   getattr result "id" ≫= λ rid, current_set rid result ≫= λ _, mret result).

(** What else [_save_element] keeps on every path: the session attributes,
    the session handle on every submit, at most two round trips and one
    mapper call; and on a backend that advertises transactions it stops at
    the first [execute_traversal], before the engine is reached. *)
Lemma _save_element_frame k s e :
  let m := _save_element C e (build FetchById k) (build Create k)
             (build Update k) (map_to_ogm C k) in
  ∃ lg, trace (m s).2 = trace s ++ lg ∧
    _session (m s).2 = _session s ∧ _use_session (m s).2 = _use_session s ∧
    Forall (λ x, x.2 = _session s) (submits lg) ∧
    executes lg = builds lg ∧
    (length (submits lg) ≤ 2)%nat ∧
    (length (fetches lg) ≤ length (submits lg))%nat ∧
    (length (maps lg) ≤ 1)%nat ∧
    (transactions C = true →
       world (m s).2 = world s ∧ submits lg = [] ∧
       (m s).1 = Raise (TypeError ("'" +:+ type_name (_use_session s) +:+
                                   "' object is not callable"))).
Proof.
  intros m. subst m. destruct s as [us ss q cur h w tr]. munfold. mrun.
  all: eexists; split; [log_ext|]; log_read.
  all: repeat split; try reflexivity; try (cbn; lia); try congruence.
  all: repeat constructor.
Qed.

(** The common tail of [save_vertex] and [save_edge] after [_save_element]. *)
Lemma persist_run k s e :
  match _save_element C e (build FetchById k) (build Create k)
          (build Update k) (map_to_ogm C k) s with
  | (Ok v, s1) =>
      match attrs s1 v !! "id" with
      | Some i =>
          persist k e s = (Ok v, set_current (<[dict_key i := v]> (_current s1)) s1)
      | None => persist k e s = (Raise (AttributeError "id"), s1)
      end
  | (Raise x, s1) => persist k e s = (Raise x, s1)
  | (Diverged, s1) => persist k e s = (Diverged, s1)
  end.
Proof.
  cbv [mbind M_bind].
  destruct (_save_element C e _ _ _ _ s) as [[v|x|] s1]; [|done..].
  cbv [getattr current_set modify mret M_ret].
  by destruct (attrs s1 v !! "id").
Qed.

(** How [save] gets to the persist algorithm, or stops before it. *)
Lemma save_cases s e :
  let s0 := set_trace (trace s ++ [EvSave e]) s in
  (∃ k, saveable k (attrs s e) ∧ save C e s = persist k e s0) ∨
  ((∀ k, ¬ saveable k (attrs s e)) ∧
   ∃ x, save C e s = (Raise x, s0) ∧
     x = match attrs s e !! "__type__" with
         | None => AttributeError "__type__"
         | Some ty =>
             if bool_decide (ty = VStr "edge")
             then Exception "Edges require source/target vetices"
             else Exception "Unknown element type"
         end).
Proof.
  intros s0. subst s0.
  destruct (attrs s e !! "__type__") as [ty|] eqn:Hty.
  - destruct (decide (ty = VStr "vertex")) as [->|Hv].
    { left. exists Vertex. split; [done|]. by apply save_vertex_dispatch. }
    destruct (decide (ty = VStr "edge")) as [->|He].
    + rewrite (save_edge_dispatch _ _ _ Hty), save_edge_unfold.
      replace (attrs (set_trace (trace s ++ [EvSave e]) s) e) with (attrs s e)
        by (by destruct s).
      destruct (bool_decide (is_Some (attrs s e !! "source"))) eqn:Hs;
        [destruct (bool_decide (is_Some (attrs s e !! "target"))) eqn:Ht|].
      * left. exists Edge. apply bool_decide_eq_true_1 in Hs, Ht.
        by repeat split.
      * right. apply bool_decide_eq_false_1 in Ht. split.
        { intros [|]; cbn; rewrite ?Hty; [congruence|tauto]. }
        eexists. by split.
      * right. apply bool_decide_eq_false_1 in Hs. split.
        { intros [|]; cbn; rewrite ?Hty; [congruence|tauto]. }
        eexists. by split.
    + right. split.
      { intros [|]; cbn; rewrite ?Hty; [congruence|intros (? & _); congruence]. }
      eexists. split; [by eapply save_unknown|].
      by rewrite bool_decide_eq_false_2.
  - right. split.
    { intros [|]; cbn; rewrite ?Hty; [congruence|intros (? & _); congruence]. }
    eexists. split; [by apply save_untyped|done].
Qed.

(** [persist] keeps what [_save_element] keeps: entering the result in the
    cache logs nothing and reaches nothing but the cache. *)
Lemma persist_frame k s e :
  ∃ lg, trace (persist k e s).2 = trace s ++ lg ∧
    _session (persist k e s).2 = _session s ∧
    _use_session (persist k e s).2 = _use_session s ∧
    Forall (λ x, x.2 = _session s) (submits lg) ∧
    (transactions C = true →
       world (persist k e s).2 = world s ∧ submits lg = [] ∧
       (persist k e s).1 = Raise (TypeError ("'" +:+ type_name (_use_session s) +:+
                                             "' object is not callable"))).
Proof.
  destruct (_save_element_frame k s e)
    as (lg & Htr & Hss & Hus & Hall & _ & _ & _ & _ & Htx).
  cbv zeta in *. pose proof (persist_run k s e) as Hrun.
  destruct (_save_element C e _ _ _ _ s) as [[v|x|] s1]; cbn [fst snd] in *.
  - exists lg. destruct (attrs s1 v !! "id"); rewrite Hrun;
      destruct s1; simpl in *; repeat split; try done.
    all: match goal with
         | H : transactions C = true |- _ => by destruct (Htx H) as (? & ? & ?)
         end.
  - exists lg. by rewrite Hrun.
  - exists lg. rewrite Hrun. repeat split; try done.
    all: match goal with
         | H : transactions C = true |- _ => by destruct (Htx H) as (? & ? & ?)
         end.
Qed.

(** The two lemmas on [save]: what it keeps, and what it does to heap and
    cache. *)
Lemma save_frame s e :
  ∃ lg, trace (save C e s).2 = trace s ++ lg ∧
    _session (save C e s).2 = _session s ∧
    _use_session (save C e s).2 = _use_session s ∧
    Forall (λ x, x.2 = _session s) (submits lg) ∧
    (transactions C = true →
       world (save C e s).2 = world s ∧ submits lg = [] ∧
       ∀ v, (save C e s).1 ≠ Ok v).
Proof.
  destruct (save_cases s e) as [(k & _ & Hrun)|(_ & x & Hrun & _)];
    cbv zeta in *; rewrite Hrun.
  - destruct (persist_frame k (set_trace (trace s ++ [EvSave e]) s) e)
      as (lg & Htr & Hss & Hus & Hall & Htx).
    exists ([EvSave e] ++ lg). rewrite Htr, Hss, Hus, submits_app.
    destruct s as [us ss q cur h w tr]. simpl in *. rewrite <- app_assoc.
    repeat split; try done.
    all: match goal with
         | H : transactions C = true |- _ =>
             destruct (Htx H) as (Hw & Hsub & Hres); try done
         end.
    intros v. by rewrite Hres.
  - exists [EvSave e]. destruct s. simpl. by repeat split.
Qed.

Lemma save_effect s e :
  match (save C e s).1 with
  | Ok v => v = e ∧ ∃ row o',
      heap (save C e s).2 = <[e := <["id" := row_id C row]> o']> (heap s) ∧
      _current (save C e s).2 = <[dict_key (row_id C row) := e]> (_current s)
  | Raise _ =>
      (∀ e', e' ≠ e → heap (save C e s).2 !! e' = heap s !! e') ∧
      _current (save C e s).2 = _current s
  | Diverged => False
  end.
Proof.
  destruct (save_cases s e) as [(k & _ & Hrun)|(_ & x & Hrun & _)];
    cbv zeta in *; rewrite Hrun.
  - destruct (persist_inv C k (set_trace (trace s ++ [EvSave e]) s) e)
      as (lg & _ & _ & _ & _ & _ & Hres).
    destruct (persist k e _) as [[v|y|] s1]; cbn [fst snd] in *; [| |done].
    + destruct Hres as (-> & row & o' & Hh & Hc). split; [done|].
      exists row, o'. rewrite Hh, Hc. by destruct s.
    + destruct Hres as (Hh & ->). split; [|by destruct s].
      intros e' Hne. rewrite (Hh e' Hne). by destruct s.
  - by destruct s.
Qed.

End Frames.

Section Drain.
Context {World Stream Row : Type}.
Variable C : collaborators World Stream Row.
Implicit Types (s : state World Stream Row) (e : ref) (k : kind).

(** *** Frames of the drain loop *)

Lemma flush_frame fuel : ∀ s,
  ∃ lg, trace (flush C fuel s).2 = trace s ++ lg ∧
    _session (flush C fuel s).2 = _session s ∧
    _use_session (flush C fuel s).2 = _use_session s ∧
    Forall (λ x, x.2 = _session s) (submits lg) ∧
    (transactions C = true →
       world (flush C fuel s).2 = world s ∧ submits lg = []).
Proof.
  induction fuel as [|n IH]; intros s.
  { exists []. cbv [flush diverge]. cbn [fst snd]. by rewrite app_nil_r. }
  destruct (_pending s) as [|elem rest] eqn:Hq.
  { exists []. rewrite (flush_done _ _ _ Hq). cbn [fst snd]. by rewrite app_nil_r. }
  rewrite (flush_step _ _ _ _ _ Hq).
  destruct (save_frame C (set_pending rest s) elem)
    as (lg1 & Htr1 & Hss1 & Hus1 & Hall1 & Htx1).
  destruct (save C elem (set_pending rest s)) as [[v|x|] s1]; cbn [fst snd] in *.
  - destruct (IH s1) as (lg2 & Htr2 & Hss2 & Hus2 & Hall2 & Htx2).
    exists (lg1 ++ lg2). rewrite Htr2, Htr1, Hss2, Hss1, Hus2, Hus1, submits_app.
    destruct s; simpl in *. rewrite <- app_assoc. repeat split; try done.
    + apply Forall_app. split; [done|]. by rewrite Hss1 in Hall2.
    + destruct (Htx2 H) as (-> & _). by destruct (Htx1 H) as (-> & _).
    + destruct (Htx2 H) as (_ & ->). by destruct (Htx1 H) as (_ & -> & _).
  - exists lg1. rewrite Htr1, Hss1, Hus1. destruct s; simpl in *.
    repeat split; try done; by destruct (Htx1 H) as (? & ? & _).
  - exists lg1. rewrite Htr1, Hss1, Hus1. destruct s; simpl in *.
    repeat split; try done; by destruct (Htx1 H) as (? & ? & _).
Qed.



(** *** Entries *)

(** X1: an element whose discriminator is missing, or is neither "vertex" nor
    "edge", is turned away by [save] at once: [AttributeError] when there is
    no [__type__], the unknown-type exception otherwise; only the entry into
    [save] is logged and nothing else has changed. *)
Theorem save_rejects_other_kinds s e :
  attrs s e !! "__type__" ≠ Some (VStr "vertex") →
  attrs s e !! "__type__" ≠ Some (VStr "edge") →
  save C e s =
    (Raise (match attrs s e !! "__type__" with
            | None => AttributeError "__type__"
            | Some _ => Exception "Unknown element type"
            end),
     set_trace (trace s ++ [EvSave e]) s).
Proof.
  intros Hv He. destruct (attrs s e !! "__type__") as [ty|] eqn:Hty.
  - eapply save_unknown; [done|congruence..].
  - by apply save_untyped.
Qed.


(** X3: [add] appends the elements one by one, in the order given, at the
    back of the queue, and reaches nothing else: no log entry, no request. *)
Theorem add_each_appends (elements : list ref) : ∀ s,
  add_each elements s = (Ok tt, set_pending (_pending s ++ elements) s) ∧
  add_each elements s = add elements s.
Proof.
  induction elements as [|elem rest IH]; intros s.
  - cbv [add_each add modify mret M_ret]. rewrite app_nil_r. by destruct s.
  - cbn [add_each]. cbv [mbind M_bind pending_append modify].
    destruct (IH (set_pending (_pending s ++ [elem]) s)) as [-> _].
    cbv [add modify]. destruct s; simpl. by rewrite <- app_assoc.
Qed.

(** X4: the outcome of [flush] does not depend on the bound on its loop once
    the bound suffices; and once [flush] has returned, flushing again does
    nothing at all. *)
Theorem flush_settles fuel : ∀ s r s',
  flush C fuel s = (r, s') → r ≠ Diverged →
  (∀ more, flush C (fuel + more) s = (r, s')) ∧
  (r = Ok tt → ∀ again, flush C (S again) s' = (Ok tt, s')).
Proof.
  intros s r s' Hrun Hr. split.
  - revert s Hrun. induction fuel as [|n IH]; intros s Hrun more.
    { cbv [flush diverge] in Hrun. by injection Hrun as <- <-. }
    cbn [Nat.add]. destruct (_pending s) as [|elem rest] eqn:Hq.
    { rewrite (flush_done _ _ _ Hq) in Hrun. by rewrite (flush_done _ _ _ Hq). }
    rewrite (flush_step _ _ _ _ _ Hq) in Hrun. rewrite (flush_step _ _ _ _ _ Hq).
    destruct (save C elem (set_pending rest s)) as [[v|x|] s1]; [|done..].
    by apply IH.
  - intros -> again. apply flush_done.
    destruct (flush_inv _ _ _ _ _ Hrun Hr) as (lg & _ & _ & _ & Hq & _).
    by apply Hq.
Qed.

(** X5: on a backend that advertises transactions nothing ever reaches the
    engine.  [save] never returns, the fetches and removes end in the
    [TypeError] of calling [_use_session], and [flush], however long its
    queue, leaves the backend as it was and submits no script. *)
Theorem transactions_stop_every_request s :
  transactions C = true →
  let not_callable :=
    TypeError ("'" +:+ type_name (_use_session s) +:+ "' object is not callable") in
  (∀ e, world (save C e s).2 = world s ∧
        submits (trace (save C e s).2) = submits (trace s) ∧
        ∀ v, (save C e s).1 ≠ Ok v) ∧
  (∀ e, (get_vertex C e s).1 = Raise not_callable ∧
        (get_edge C e s).1 = Raise not_callable ∧
        (remove_vertex C e s).1 = Raise not_callable ∧
        (remove_edge C e s).1 = Raise not_callable) ∧
  (∀ fuel, world (flush C fuel s).2 = world s ∧
           submits (trace (flush C fuel s).2) = submits (trace s)).
Proof.
  intros Htx not_callable. subst not_callable. split; [|split].
  - intros e. destruct (save_frame C s e) as (lg & Htr & _ & _ & _ & H).
    destruct (H Htx) as (Hw & Hsub & Hres).
    by rewrite Htr, submits_app, Hsub, app_nil_r.
  - intros e. destruct s as [us ss q cur h w tr].
    repeat split; munfold; mfwd; by destruct (parse_traversal C _).
  - intros fuel. destruct (flush_frame fuel s) as (lg & Htr & _ & _ & _ & H).
    destruct (H Htx) as (Hw & Hsub).
    by rewrite Htr, submits_app, Hsub, app_nil_r.
Qed.

(** X6: on such a backend [commit], once its flush has returned, ends in the
    same [TypeError]; the finalize step [tx] is not invoked. *)
Theorem commit_with_transactions fuel s s1 :
  transactions C = true →
  flush C fuel s = (Ok tt, s1) →
  commit C fuel s =
    (Raise (TypeError ("'" +:+ type_name (_use_session s) +:+
                       "' object is not callable")), s1) ∧
  txs (trace s1) = txs (trace s).
Proof.
  intros Htx Hrun.
  destruct (flush_frame fuel s) as (_ & _ & _ & Hus & _).
  destruct (flush_inv _ _ _ _ _ Hrun) as (lg & Htr & _ & Htxs & _); [done|].
  rewrite Hrun in Hus. cbn [snd] in Hus.
  cbv [commit mbind M_bind]. rewrite Hrun, Htx.
  cbv [get py_call raise]. rewrite Hus, Htr, txs_app, Htxs. split; [done|lia].
Qed.


(** X8: nothing in the session ever sets [_use_session] or [_session]: a
    whole [flush] keeps both, and every script it submits goes out with the
    session handle the session had at the start.  The constructor sets them
    to [False] and [None], whatever [use_session] it is given. *)
Theorem session_handle_is_constant fuel s :
  _session (flush C fuel s).2 = _session s ∧
  _use_session (flush C fuel s).2 = _use_session s ∧
  (∃ lg, trace (flush C fuel s).2 = trace s ++ lg ∧
         Forall (λ x, x.2 = _session s) (submits lg)) ∧
  (∀ use_session h (w : World),
     _session (Session_init (Stream:=Stream) (Row:=Row) use_session h w) = VNone ∧
     _use_session (Session_init (Stream:=Stream) (Row:=Row) use_session h w) = VBool false).
Proof.
  destruct (flush_frame fuel s) as (lg & Htr & Hss & Hus & Hall & _).
  split; [done|]. split; [done|]. split; [by exists lg|done].
Qed.

End Drain.

Section Paths.
Context {World Stream Row : Type}.
Variable C : collaborators World Stream Row.
Implicit Types (s : state World Stream Row) (e : ref) (k : kind).

Local Abbreviation persist k e :=
  (_save_element C e (build FetchById k) (build Create k) (build Update k)
     (map_to_ogm C k) ≫= λ result,
   getattr result "id" ≫= λ rid, current_set rid result ≫= λ _, mret result).

Lemma save_persist k s e :
  saveable k (attrs s e) →
  save C e s = persist k e (set_trace (trace s ++ [EvSave e]) s).
Proof.
  destruct k; cbn [saveable].
  - apply save_vertex_dispatch.
  - intros (Hty & Hs & Ht). rewrite (save_edge_dispatch _ _ _ Hty), save_edge_unfold.
    replace (attrs (set_trace (trace s ++ [EvSave e]) s) e) with (attrs s e)
      by (by destruct s).
    by rewrite !bool_decide_eq_true_2.
Qed.

Lemma remote_err_inv t session w x es w' :
  remote C t session w = (inl x, es, w') →
  ∃ script bindings, parse_traversal C t = (script, bindings) ∧
    (submit C script bindings session w = (inl x, es, w') ∨
     ∃ st es1 w1 es2,
       submit C script bindings session w = (inr st, es1, w1) ∧
       fetch_data C st w1 = (inl x, es2, w') ∧ es = es1 ++ es2).
Proof.
  cbv [remote]. destruct (parse_traversal C t) as [script bindings] eqn:Hp.
  destruct (submit C script bindings session w) as [[r es1] w1] eqn:Hs.
  destruct r as [y|st].
  - intros [= -> -> ->]. exists script, bindings. split; [done|]. by left.
  - destruct (fetch_data C st w1) as [[d es2] w2] eqn:Hf.
    intros [= -> <- <-]. exists script, bindings. split; [done|]. right.
    by exists st, es1, w1, es2.
Qed.

(** X9: an edge that has both endpoint attributes and no id is saved like a
    vertex without id, with the edge traversals and the edge mapper: exactly
    one traversal, the create one, is built and executed; what is submitted
    is the compiled create script, once (nothing at all on a backend that
    advertises transactions), and nothing is fetched that was not submitted
    nor mapped that was not fetched.  On return the edge itself comes back:
    the script has been submitted once, its stream fetched once, the backend
    is where that round trip left it, the first row of the result has been
    merged by the edge mapper, once, onto the edge, which carries the id of
    that row and is cached under it. *)
Theorem save_edge_without_identity s e :
  saveable Edge (attrs s e) →
  attrs s e !! "id" = None →
  let create := Traversal Create Edge e (attrs s e) in
  let script := (parse_traversal C create).1 in
  let bindings := (parse_traversal C create).2 in
  (∃ lg, trace (save C e s).2 = trace s ++ lg ∧
         builds lg = [create] ∧ executes lg = [create] ∧
         submits lg = (if transactions C then []
                       else [(script, bindings, _session s)]) ∧
         (length (fetches lg) ≤ length (submits lg))%nat ∧
         (length (maps lg) ≤ length (fetches lg))%nat) ∧
  (∀ v s', save C e s = (Ok v, s') →
     v = e ∧ transactions C = false ∧
     ∃ row rows es w' st mapping o' lg,
       remote C create (_session s) (world s) = (inr (row :: rows), es, w') ∧
       (submit C script bindings (_session s) (world s)).1.1 = inr st ∧
       attrs s e !! "__mapping__" = Some mapping ∧
       merge_fields C Edge row mapping (attrs s e) = inr o' ∧
       trace s' = trace s ++ lg ∧
       submits lg = [(script, bindings, _session s)] ∧
       fetches lg = [st] ∧
       maps lg = [(Edge, row, e)] ∧
       world s' = w' ∧
       attrs s' e = <["id" := row_id C row]> o' ∧
       attrs s' e !! "id" = Some (row_id C row) ∧
       _current s' = <[dict_key (row_id C row) := e]> (_current s) ∧
       _current s' !! dict_key (row_id C row) = Some e) ∧
  (transactions C = false →
   ∀ row rows es w',
     remote C create (_session s) (world s) = (inr (row :: rows), es, w') →
     ∀ mapping o',
       attrs s e !! "__mapping__" = Some mapping →
       merge_fields C Edge row mapping (attrs s e) = inr o' →
       (save C e s).1 = Ok e).
Proof.
  intros Hsv Hid create script bindings. subst create script bindings.
  rewrite (save_persist Edge _ _ Hsv). clear Hsv.
  destruct s as [us ss q cur h w tr]. msimpl.
  split; [|split].
  - munfold. msimpl. rewrite Hid.
    rewrite (bool_decide_eq_false_2 (is_Some None)) by (apply is_Some_None).
    mrun.
    all: eexists; split; [log_ext|]; log_read.
    all: repeat split; try reflexivity; simpl; lia.
  - intros v s'. munfold. msimpl. rewrite Hid.
    rewrite (bool_decide_eq_false_2 (is_Some None)) by (apply is_Some_None).
    mrun. all: try discriminate.
    intros [=]; subst.
    rewrite lookup_total_insert_eq, lookup_insert_eq in *.
    match goal with H : Some _ = Some _ |- _ => injection H as <- end.
    split; [done|]. split; [done|]. eexists _, _, _, _, _, _, _, _.
    split; [cbv [remote]; by mfwd|].
    split; [reflexivity|]. split; [reflexivity|]. split; [eassumption|].
    split; [log_ext|]. log_read.
    repeat split; try reflexivity. by rewrite lookup_insert_eq.
  - intros Htx row rows es w' Hrem mapping o' Hm Hmerge.
    apply remote_ok_inv in Hrem
      as (script & bindings & st & es1 & w1 & es2 & Hp & Hs & Hf & ->).
    munfold. msimpl. rewrite Hid.
    rewrite (bool_decide_eq_false_2 (is_Some None)) by (apply is_Some_None).
    mfwd. by rewrite lookup_total_insert_eq, lookup_insert_eq.
Qed.

(** X10: an edge that has both endpoint attributes and an id is saved like a
    vertex with id: always one fetch-by-id first and at most one traversal
    after it; when the fetch has a result, the update traversal follows if it
    has a row and the create traversal if it is empty; the first row of that
    final result, when the edge mapper can merge it, is merged onto the edge
    in place and the edge is returned. *)
Theorem save_edge_with_identity s e i :
  saveable Edge (attrs s e) →
  attrs s e !! "id" = Some i →
  let fetch := Traversal FetchById Edge e (attrs s e) in
  (∃ lg rest, trace (save C e s).2 = trace s ++ lg ∧
     builds lg = fetch :: rest ∧ (length rest ≤ 1)%nat ∧
     Forall (λ t, tr_intent t ≠ FetchById) rest ∧
     executes lg = builds lg) ∧
  (transactions C = false →
   ∀ found es1 w1,
     remote C fetch (_session s) (world s) = (inr found, es1, w1) →
     let next := Traversal (match found with [] => Create | _ :: _ => Update end)
                   Edge e (attrs s e) in
     (∃ lg, trace (save C e s).2 = trace s ++ lg ∧
            builds lg = [fetch; next] ∧ executes lg = [fetch; next]) ∧
     (∀ row rows es2 w2 mapping o',
        remote C next (_session s) w1 = (inr (row :: rows), es2, w2) →
        attrs s e !! "__mapping__" = Some mapping →
        merge_fields C Edge row mapping (attrs s e) = inr o' →
        ∃ s' lg, save C e s = (Ok e, s') ∧
          trace s' = trace s ++ lg ∧
          maps lg = [(Edge, row, e)] ∧
          attrs s' e = <["id" := row_id C row]> o' ∧
          _current s' = <[dict_key (row_id C row) := e]> (_current s) ∧
          world s' = w2)).
Proof.
  intros Hsv Hid fetch. subst fetch.
  rewrite (save_persist Edge _ _ Hsv). clear Hsv.
  destruct s as [us ss q cur h w tr]. msimpl.
  assert (Hhas : bool_decide (is_Some ((h !!! e) !! "id")) = true)
    by (apply bool_decide_eq_true_2; eauto).
  split.
  - munfold. msimpl. rewrite Hhas. mrun.
    all: eexists _, _; split; [log_ext|]; log_read.
    all: split; [reflexivity|]; split; [cbn; lia|].
    all: split; [repeat constructor; discriminate|reflexivity].
  - intros Htx found es1 w1 Hrem.
    apply remote_ok_inv in Hrem
      as (script & bindings & st & esa & wa & esb & Hp & Hs & Hf & ->).
    split.
    + munfold. msimpl. rewrite Hhas. mfwd. destruct found; mrun.
      all: eexists; split; [log_ext|]; by log_read.
    + intros row rows es2 w2 mapping o' Hrem2 Hm Hmerge.
      apply remote_ok_inv in Hrem2
        as (script2 & bindings2 & st2 & esc & wc & esd & Hp2 & Hs2 & Hf2 & ->).
      munfold. msimpl. rewrite Hhas. mfwd. destruct found; mfwd.
      all: rewrite lookup_total_insert_eq, lookup_insert_eq.
      all: eexists _, _; split; [reflexivity|]; msimpl.
      all: split; [log_ext|]; log_read.
      all: by rewrite lookup_total_insert_eq.
Qed.


(** X12: a failure of the engine or of the result stream on the first
    traversal of a save (the fetch-by-id for an element with id, the create
    otherwise) comes out of [save] unchanged; no second traversal is built,
    the mapper is not invoked, and the element and the cache are as before. *)
Theorem save_propagates_engine_failure k s e :
  saveable k (attrs s e) →
  transactions C = false →
  let first :=
    Traversal (match attrs s e !! "id" with Some _ => FetchById | None => Create end)
      k e (attrs s e) in
  ∀ x es w',
    remote C first (_session s) (world s) = (inl x, es, w') →
    ∃ s' lg, save C e s = (Raise x, s') ∧
      trace s' = trace s ++ lg ∧
      builds lg = [first] ∧ maps lg = [] ∧
      world s' = w' ∧ heap s' = heap s ∧ _current s' = _current s.
Proof.
  intros Hsv Htx first x es w' Hrem. subst first.
  rewrite (save_persist k _ _ Hsv). clear Hsv.
  apply remote_err_inv in Hrem as (script & bindings & Hp & Hrem).
  destruct s as [us ss q cur h w tr]. msimpl.
  destruct ((h !!! e) !! "id") as [i|] eqn:Hid.
  - assert (Hhas : bool_decide (is_Some ((h !!! e) !! "id")) = true)
      by (rewrite Hid; apply bool_decide_eq_true_2; eauto).
    rewrite Hid in Hhas.
    destruct Hrem as [Hs|(st & es1 & w1 & es2 & Hs & Hf & ->)].
    all: munfold; msimpl; rewrite Hid, Hhas; mfwd.
    all: eexists _, _; split; [reflexivity|]; msimpl.
    all: split; [log_ext|]; by log_read.
  - assert (Hhas : bool_decide (is_Some ((h !!! e) !! "id")) = false)
      by (rewrite Hid; apply bool_decide_eq_false_2, is_Some_None).
    rewrite Hid in Hhas.
    destruct Hrem as [Hs|(st & es1 & w1 & es2 & Hs & Hf & ->)].
    all: munfold; msimpl; rewrite Hid, Hhas; mfwd.
    all: eexists _, _; split; [reflexivity|]; msimpl.
    all: split; [log_ext|]; by log_read.
Qed.

(** X13: removing an element whose id is a key of the cache, as a dictionary
    compares keys, on a backend that accepts the delete: the rows fetched
    are returned, the key is gone from the cache, whatever object it held,
    and no element has changed. *)
Theorem remove_cached_succeeds k s e i held :
  let remove_element :=
    match k with Vertex => remove_vertex C | Edge => remove_edge C end in
  let del := Traversal Delete k e (attrs s e) in
  attrs s e !! "id" = Some i →
  _current s !! dict_key i = Some held →
  transactions C = false →
  ∀ rows es w',
    remote C del (_session s) (world s) = (inr rows, es, w') →
    ∃ s' lg, remove_element e s = (Ok rows, s') ∧
      trace s' = trace s ++ lg ∧
      builds lg = [del] ∧ length (submits lg) = 1 ∧
      world s' = w' ∧ _current s' = delete (dict_key i) (_current s) ∧
      heap s' = heap s.
Proof.
  intros remove_element del Hid Hcur Htx rows es w' Hrem.
  subst remove_element del.
  apply remote_ok_inv in Hrem
    as (script & bindings & st & es1 & w1 & es2 & Hp & Hs & Hf & ->).
  destruct s as [us ss q cur h w tr]. msimpl.
  destruct k; munfold; mfwd.
  all: eexists _, _; split; [reflexivity|]; msimpl.
  all: split; [log_ext|]; by log_read.
Qed.

(** X14: removing an element that carries no id: the delete traversal is
    built from it, submitted and fetched all the same, and only then does the
    call end, in [AttributeError]; the cache is as before. *)
Theorem remove_without_identity k s e :
  let remove_element :=
    match k with Vertex => remove_vertex C | Edge => remove_edge C end in
  let del := Traversal Delete k e (attrs s e) in
  attrs s e !! "id" = None →
  transactions C = false →
  ∀ rows es w',
    remote C del (_session s) (world s) = (inr rows, es, w') →
    ∃ s' lg, remove_element e s = (Raise (AttributeError "id"), s') ∧
      trace s' = trace s ++ lg ∧
      builds lg = [del] ∧ length (submits lg) = 1 ∧ length (fetches lg) = 1 ∧
      world s' = w' ∧ _current s' = _current s ∧ heap s' = heap s.
Proof.
  intros remove_element del Hid Htx rows es w' Hrem.
  subst remove_element del.
  apply remote_ok_inv in Hrem
    as (script & bindings & st & es1 & w1 & es2 & Hp & Hs & Hf & ->).
  destruct s as [us ss q cur h w tr]. msimpl.
  destruct k; munfold; mfwd.
  all: eexists _, _; split; [reflexivity|]; msimpl.
  all: split; [log_ext|]; by log_read.
Qed.

(** X15: save, then remove.  An element that [save] has just returned can be
    removed: on a backend that accepts the delete the remove returns the
    fetched rows, never a [KeyError], and takes the element's id out of the
    cache; if no key of the cache was equal to that id before the save, the
    cache is back to what it was. *)
Theorem save_then_remove k s e s1 :
  let remove_element :=
    match k with Vertex => remove_vertex C | Edge => remove_edge C end in
  save C e s = (Ok e, s1) →
  transactions C = false →
  ∀ rows es w',
    remote C (Traversal Delete k e (attrs s1 e)) (_session s1) (world s1)
      = (inr rows, es, w') →
    ∃ s2 i, remove_element e s1 = (Ok rows, s2) ∧
      attrs s1 e !! "id" = Some i ∧
      _current s2 = delete (dict_key i) (_current s1) ∧
      (_current s !! dict_key i = None → _current s2 = _current s) ∧
      heap s2 = heap s1.
Proof.
  intros remove_element Hsave Htx rows es w' Hrem. subst remove_element.
  pose proof (save_effect C s e) as Heff. rewrite Hsave in Heff.
  cbn [fst snd] in Heff. destruct Heff as (_ & row & o' & Hh & Hc).
  assert (Hid : attrs s1 e !! "id" = Some (row_id C row)).
  { unfold attrs. by rewrite Hh, lookup_total_insert_eq, lookup_insert_eq. }
  assert (Hcur : _current s1 !! dict_key (row_id C row) = Some e).
  { by rewrite Hc, lookup_insert_eq. }
  apply remote_ok_inv in Hrem
    as (script & bindings & st & es1 & w1 & es2 & Hp & Hs & Hf & ->).
  clear Hsave Hh. destruct s1 as [us ss q cur h w tr]. msimpl.
  destruct k; munfold; mfwd.
  all: eexists _, (row_id C row); split; [reflexivity|]; msimpl.
  all: repeat split; try done.
  all: intros Hnone; subst cur; by apply delete_insert_id.
Qed.

End Paths.

(** ** Beyond the claims: the remote graph *)

Ltac gunfold :=
  cbv [Graph.next Graph.apply Graph.close Graph.aexit Graph.aenter
       Graph.graph_repr Graph.traversal_repr Graph.deref Graph.connection_of
       Graph.call_submit Graph.call_close Graph.clear_connection Graph.fail
       Graph.open_with Graph.closed mbind mret Graph.G_bind Graph.G_ret] in *.

Section GraphProofs.
Import Graph.
Context {World Resp Bytecode : Type}.
Implicit Types (s : gstate (World:=World) (Resp:=Resp) (Bytecode:=Bytecode))
  (t : traversal_obj (Bytecode:=Bytecode)) (g : ref)
  (c : connection (World:=World) (Resp:=Resp)).

(** X16: [next] reaches the connection exactly when the graph of the
    traversal is open.  On an open graph it submits, once, the translation of
    the traversal's bytecode with the traversal's bindings and the
    translator's target language, and hands back what the connection gave,
    response or failure.  On a closed graph it ends in [AttributeError] and
    nothing is submitted. *)
Theorem next_needs_open_graph t s :
  let gr := graphs s !!! t_graph t in
  let script := translate (graph_translator gr) (t_bytecode t) in
  let lang := target_language (graph_translator gr) in
  (∀ c, open_with (t_graph t) c s →
     let reply := conn_submit c script (t_bindings t) lang (gworld s) in
     next t s =
       (match reply.1 with inl x => Raise x | inr resp => Ok resp end,
        GState (graphs s) reply.2
          (calls s ++ [Submitted (url c) script (t_bindings t) lang]))) ∧
  (closed (t_graph t) s → next t s = (Raise (AttributeError "submit"), s)).
Proof.
  split.
  - intros c Hopen. destruct t as [g [] b bs]. gunfold. cbn in *.
    rewrite Hopen. by destruct (conn_submit c _ _ _ _) as [[x|resp] w'].
  - intros Hclosed. destruct t as [g [] b bs]. gunfold. cbn in *.
    by rewrite Hclosed.
Qed.

(** X17: [close] on an open graph calls the connection's [close] once.  When
    that returns, the graph's reference to the connection is cleared and
    nothing else about this graph or any other has changed; when it fails,
    the failure comes out of [close] and the graph still holds its
    connection. *)
Theorem close_clears_connection g s c :
  open_with g c s →
  (∀ w', conn_close c (gworld s) = (inr tt, w') →
     ∃ s', close g s = (Ok tt, s') ∧
       closed g s' ∧ gworld s' = w' ∧
       calls s' = calls s ++ [Closed (url c)] ∧
       graph_translator (graphs s' !!! g) = graph_translator (graphs s !!! g) ∧
       graph_traversal (graphs s' !!! g) = graph_traversal (graphs s !!! g) ∧
       ∀ g', g' ≠ g → graphs s' !! g' = graphs s !! g') ∧
  (∀ x w', conn_close c (gworld s) = (inl x, w') →
     ∃ s', close g s = (Raise x, s') ∧
       open_with g c s' ∧ gworld s' = w' ∧ graphs s' = graphs s ∧
       calls s' = calls s ++ [Closed (url c)]).
Proof.
  intros Hopen. split.
  - intros w' Hc. gunfold. rewrite Hopen, Hc. cbn.
    eexists. split; [reflexivity|]. cbn.
    rewrite lookup_total_insert_eq. cbn. repeat split; try done.
    intros g' Hne. by rewrite lookup_insert_ne.
  - intros x w' Hc. gunfold. rewrite Hopen, Hc. cbn.
    eexists. split; [reflexivity|]. by cbn.
Qed.

(** X18: [close] is one-shot.  After a [close] that returned, a second
    [close], the graph's [__repr__] and [next] on any traversal of the graph,
    spawned before or after, all end in [AttributeError] without reaching the
    transport; the translation of a traversal can still be read. *)
Theorem close_is_one_shot g s s' :
  close g s = (Ok tt, s') →
  close g s' = (Raise (AttributeError "close"), s') ∧
  graph_repr g s' = (Raise (AttributeError "url"), s') ∧
  (∀ t, t_graph t = g →
     next t s' = (Raise (AttributeError "submit"), s') ∧
     (traversal_repr t s').1 = (traversal_repr t s).1).
Proof.
  intros Hrun.
  assert (Hcl : closed g s' ∧
                graph_translator (graphs s' !!! g) = graph_translator (graphs s !!! g)).
  { revert Hrun. gunfold.
    destruct (remote_connection (graphs s !!! g)) as [c|]; [|done]. cbn.
    destruct (conn_close c (gworld s)) as [[x|[]] w']; [done|]. cbn.
    intros [= <-]. cbn. by rewrite lookup_total_insert_eq. }
  destruct Hcl as [Hcl Htr]. split; [|split].
  - gunfold. by rewrite Hcl.
  - gunfold. by rewrite Hcl.
  - intros [g0 [] b bs] Hg. cbn in Hg. subst g0. split.
    + gunfold. cbn. by rewrite Hcl.
    + gunfold. cbn. by rewrite Htr.
Qed.

(** X19: [async with graph] closes the graph when the block ends, however it
    ends.  If the graph is still open then and the connection closes, the
    outcome of the block, value or exception, is the outcome of the whole
    statement and the graph is left closed; if the connection fails to
    close, that failure is the outcome and the graph still holds the
    connection; and if the block has closed the graph itself, the statement
    ends in [AttributeError] even when the block returned normally. *)
Theorem async_with_closes {A} g (body : ref → G A) s r s1 :
  body g s = (r, s1) →
  r ≠ Diverged →
  (∀ c w2, open_with g c s1 → conn_close c (gworld s1) = (inr tt, w2) →
     ∃ s2, async_with g body s = (r, s2) ∧
       closed g s2 ∧ gworld s2 = w2 ∧
       calls s2 = calls s1 ++ [Closed (url c)]) ∧
  (∀ c x w2, open_with g c s1 → conn_close c (gworld s1) = (inl x, w2) →
     ∃ s2, async_with g body s = (Raise x, s2) ∧
       open_with g c s2 ∧ gworld s2 = w2) ∧
  (closed g s1 → async_with g body s = (Raise (AttributeError "close"), s1)).
Proof.
  intros Hbody Hr. split; [|split].
  - intros c w2 Hopen Hc.
    assert (Hrun : ∃ s2, close g s1 = (Ok tt, s2) ∧ closed g s2 ∧ gworld s2 = w2 ∧
                         calls s2 = calls s1 ++ [Closed (url c)]).
    { gunfold. rewrite Hopen, Hc. cbn. eexists. split; [reflexivity|]. cbn.
      by rewrite lookup_total_insert_eq. }
    destruct Hrun as (s2 & Hrun & Hrest). exists s2. split; [|done].
    cbv [async_with aenter aexit mret G_ret]. rewrite Hbody, Hrun.
    by destruct r.
  - intros c x w2 Hopen Hc.
    assert (Hrun : ∃ s2, close g s1 = (Raise x, s2) ∧ open_with g c s2 ∧ gworld s2 = w2).
    { gunfold. rewrite Hopen, Hc. cbn. eexists. split; [reflexivity|]. by cbn. }
    destruct Hrun as (s2 & Hrun & Hrest). exists s2. split; [|done].
    cbv [async_with aenter aexit mret G_ret]. rewrite Hbody, Hrun.
    by destruct r.
  - intros Hcl.
    assert (Hrun : close g s1 = (Raise (AttributeError "close"), s1)).
    { gunfold. by rewrite Hcl. }
    cbv [async_with aenter aexit mret G_ret]. rewrite Hbody, Hrun.
    by destruct r.
Qed.

End GraphProofs.

(** ** The further statements at work *)

(** X1 at work: an element of kind "hyperedge". *)
Lemma save_rejects_other_kinds_witness :
  save E 0 Mock.odd_kind =
    (Raise (Exception "Unknown element type"),
     set_trace (trace Mock.odd_kind ++ [EvSave 0]) Mock.odd_kind).
Proof.
  apply (save_rejects_other_kinds E Mock.odd_kind 0); vm_compute; discriminate.
Defined.


(** X4 at work on the queue that grows while it is drained. *)
Lemma flush_settles_witness :
  (∀ more, flush E (3 + more) Mock.queue_growing
           = (Ok tt, (flush E 3 Mock.queue_growing).2)) ∧
  (∀ again, flush E (S again) (flush E 3 Mock.queue_growing).2
            = (Ok tt, (flush E 3 Mock.queue_growing).2)).
Proof.
  destruct (flush_settles E 3 Mock.queue_growing (Ok tt)
              (flush E 3 Mock.queue_growing).2) as [Hmore Hagain];
    [vm_compute; reflexivity|discriminate|].
  split; [exact Hmore|exact (Hagain eq_refl)].
Defined.

(** X5 at work: the new vertex on a backend that advertises transactions. *)
Lemma transactions_stop_every_request_witness :
  world (save Etx 0 Mock.new_vertex).2 = world Mock.new_vertex ∧
  submits (trace (save Etx 0 Mock.new_vertex).2) = [] ∧
  (get_vertex Etx 0 Mock.new_vertex).1
    = Raise (TypeError "'bool' object is not callable") ∧
  world (flush Etx 5 (Mock.queued [0] Mock.new_vertex)).2 = world Mock.new_vertex.
Proof.
  destruct (transactions_stop_every_request Etx Mock.new_vertex eq_refl)
    as (Hsave & Hget & _).
  destruct (transactions_stop_every_request Etx (Mock.queued [0] Mock.new_vertex) eq_refl)
    as (_ & _ & Hflush).
  destruct (Hsave 0) as (Hw & Hsub & _). destruct (Hget 0) as (Hg & _).
  destruct (Hflush 5) as (Hfw & _).
  split; [exact Hw|]. split; [exact Hsub|]. split; [exact Hg|exact Hfw].
Defined.

(** X6 at work: [commit] with nothing pending on such a backend. *)
Lemma commit_with_transactions_witness :
  commit Etx 1 Mock.nothing_pending =
    (Raise (TypeError "'bool' object is not callable"), Mock.nothing_pending) ∧
  txs (trace Mock.nothing_pending) = txs (trace Mock.nothing_pending).
Proof.
  apply (commit_with_transactions Etx 1 Mock.nothing_pending Mock.nothing_pending eq_refl).
  vm_compute. reflexivity.
Defined.


(** X9 at work: a new edge between existing endpoints. *)
Lemma save_edge_without_identity_witness :
  (save E 1 Mock.new_edge).1 = Ok 1 ∧
  transactions E = false ∧
  ∃ row rows es w' st mapping o' lg,
    remote E (Traversal Create Edge 1 (attrs Mock.new_edge 1))
      (_session Mock.new_edge) (world Mock.new_edge)
      = (inr (row :: rows), es, w') ∧
    (submit E (parse_traversal E (Traversal Create Edge 1 (attrs Mock.new_edge 1))).1
       (parse_traversal E (Traversal Create Edge 1 (attrs Mock.new_edge 1))).2
       (_session Mock.new_edge) (world Mock.new_edge)).1.1 = inr st ∧
    attrs Mock.new_edge 1 !! "__mapping__" = Some mapping ∧
    merge_fields E Edge row mapping (attrs Mock.new_edge 1) = inr o' ∧
    trace (save E 1 Mock.new_edge).2 = trace Mock.new_edge ++ lg ∧
    submits lg =
      [((parse_traversal E (Traversal Create Edge 1 (attrs Mock.new_edge 1))).1,
        (parse_traversal E (Traversal Create Edge 1 (attrs Mock.new_edge 1))).2,
        _session Mock.new_edge)] ∧
    fetches lg = [st] ∧
    maps lg = [(Edge, row, 1)] ∧
    world (save E 1 Mock.new_edge).2 = w' ∧
    attrs (save E 1 Mock.new_edge).2 1 = <["id" := row_id E row]> o' ∧
    attrs (save E 1 Mock.new_edge).2 1 !! "id" = Some (row_id E row) ∧
    _current (save E 1 Mock.new_edge).2
      = <[dict_key (row_id E row) := 1]> (_current Mock.new_edge) ∧
    _current (save E 1 Mock.new_edge).2 !! dict_key (row_id E row) = Some 1.
Proof.
  destruct (save_edge_without_identity E Mock.new_edge 1) as (_ & Hret & Hok);
    [split; [vm_compute; reflexivity|split; eexists; vm_compute; reflexivity]
    |vm_compute; reflexivity|].
  assert (Hrun : (save E 1 Mock.new_edge).1 = Ok 1).
  { apply (Hok eq_refl Mock.row9 [] [] [] ltac:(vm_compute; reflexivity)
             VNone Mock.knows_new); vm_compute; reflexivity. }
  split; [exact Hrun|].
  apply (Hret 1 (save E 1 Mock.new_edge).2). vm_compute. reflexivity.
Defined.

(** X10 at work: an edge with id 3 that the backend knows. *)
Lemma save_edge_with_identity_witness :
  ∃ s' lg, save E 0 Mock.known_edge = (Ok 0, s') ∧
    trace s' = trace Mock.known_edge ++ lg ∧
    maps lg = [(Edge, Mock.row3, 0)] ∧
    attrs s' 0 = <["id" := VStr "3"]> (<["name" := VStr "new"]> Mock.knows3) ∧
    _current s' = <[dict_key (VStr "3") := 0]> ∅ ∧
    world s' = [].
Proof.
  destruct (save_edge_with_identity E Mock.known_edge 0 (VStr "3"))
    as (_ & Hfound);
    [split; [vm_compute; reflexivity|split; eexists; vm_compute; reflexivity]
    |vm_compute; reflexivity|].
  destruct (Hfound eq_refl [Mock.row3] [] [([Mock.row3], [])]) as (_ & Hmerge);
    [vm_compute; reflexivity|].
  apply (Hmerge Mock.row3 [] [] [] VNone); vm_compute; reflexivity.
Defined.


(** The element after the refused row: the mapper had cleared its name
    before it failed, and the element stays that way. *)
Example save_refused_row_leaves_partial :
  attrs Mock.bare_row 0 !! "name" = Some (VStr "ada") ∧
  (save Mock.picky_engine 0 Mock.bare_row).1 = Raise (Exception "row without fields") ∧
  attrs (save Mock.picky_engine 0 Mock.bare_row).2 0 !! "name" = None.
Proof. vm_compute. repeat split; reflexivity. Qed.

(** X12 at work: the connection is lost before the create goes out. *)
Lemma save_propagates_engine_failure_witness :
  ∃ s' lg, save E 0 Mock.offline = (Raise (TransportError "connection lost"), s') ∧
    trace s' = trace Mock.offline ++ lg ∧
    builds lg = [Traversal Create Vertex 0 Mock.ada] ∧ maps lg = [] ∧
    world s' = [] ∧ heap s' = heap Mock.offline ∧ _current s' = _current Mock.offline.
Proof.
  apply (save_propagates_engine_failure E Vertex Mock.offline 0
           ltac:(vm_compute; reflexivity) eq_refl (TransportError "connection lost") [] []).
  vm_compute. reflexivity.
Defined.

(** X13 at work: object 1 has id 3, the cache holds object 0 under 3. *)
Lemma remove_cached_succeeds_witness :
  ∃ s' lg, remove_vertex E 1 Mock.stale_cache = (Ok [Mock.row3], s') ∧
    trace s' = trace Mock.stale_cache ++ lg ∧
    builds lg = [Traversal Delete Vertex 1 Mock.bob_again] ∧
    length (submits lg) = 1 ∧ world s' = [] ∧
    _current s' = delete (dict_key (VStr "3")) (_current Mock.stale_cache) ∧
    heap s' = heap Mock.stale_cache.
Proof.
  apply (remove_cached_succeeds E Vertex Mock.stale_cache 1 (VStr "3") 0
           ltac:(vm_compute; reflexivity) ltac:(vm_compute; reflexivity) eq_refl
           [Mock.row3] [] []).
  vm_compute. reflexivity.
Defined.

(** X14 at work: removing the vertex that was never saved. *)
Lemma remove_without_identity_witness :
  ∃ s' lg, remove_vertex E 0 Mock.new_vertex = (Raise (AttributeError "id"), s') ∧
    trace s' = trace Mock.new_vertex ++ lg ∧
    builds lg = [Traversal Delete Vertex 0 Mock.ada] ∧
    length (submits lg) = 1 ∧ length (fetches lg) = 1 ∧
    world s' = [] ∧ _current s' = _current Mock.new_vertex ∧
    heap s' = heap Mock.new_vertex.
Proof.
  apply (remove_without_identity E Vertex Mock.new_vertex 0
           ltac:(vm_compute; reflexivity) eq_refl [Mock.row7] [] []).
  vm_compute. reflexivity.
Defined.

(** X15 at work: save the new vertex, then remove it: the cache is empty
    again. *)
Lemma save_then_remove_witness :
  ∃ s2 i, remove_vertex E 0 (save E 0 Mock.save_and_remove).2 = (Ok [], s2) ∧
    attrs (save E 0 Mock.save_and_remove).2 0 !! "id" = Some i ∧
    _current s2 = delete (dict_key i) (_current (save E 0 Mock.save_and_remove).2) ∧
    (_current Mock.save_and_remove !! dict_key i = None →
     _current s2 = _current Mock.save_and_remove) ∧
    heap s2 = heap (save E 0 Mock.save_and_remove).2.
Proof.
  apply (save_then_remove E Vertex Mock.save_and_remove 0
           (save E 0 Mock.save_and_remove).2
           ltac:(vm_compute; reflexivity) eq_refl [] [] []).
  vm_compute. reflexivity.
Defined.

(** X16 at work: [g.V().count()] on the open graph. *)
Lemma next_needs_open_graph_witness :
  Graph.next Wire.count_vertices (Wire.one_graph Wire.socket) =
    (Ok "ok:g.V().count()",
     Graph.GState (Graph.graphs (Wire.one_graph Wire.socket)) ["g.V().count()"]
       [Graph.Submitted "ws://localhost:8182/" "g.V().count()" [] "gremlin-groovy"]).
Proof.
  apply (proj1 (next_needs_open_graph Wire.count_vertices (Wire.one_graph Wire.socket))
           Wire.socket).
  vm_compute. reflexivity.
Defined.

(** X17 at work: closing the open graph, on a connection that closes and on
    one that does not. *)
Lemma close_clears_connection_witness :
  (∃ s', Graph.close 0 (Wire.one_graph Wire.socket) = (Ok tt, s') ∧
     Graph.closed 0 s' ∧ Graph.calls s' = [Graph.Closed "ws://localhost:8182/"]) ∧
  (∃ s', Graph.close 0 (Wire.one_graph Wire.stuck_socket)
           = (Raise (TransportError "close failed"), s') ∧
     Graph.open_with 0 Wire.stuck_socket s').
Proof.
  split.
  - destruct (close_clears_connection 0 (Wire.one_graph Wire.socket) Wire.socket)
      as [Hok _]; [vm_compute; reflexivity|].
    destruct (Hok [] ltac:(vm_compute; reflexivity)) as (s' & Hrun & Hcl & _ & Hcalls & _).
    exists s'. by repeat split.
  - destruct (close_clears_connection 0 (Wire.one_graph Wire.stuck_socket) Wire.stuck_socket)
      as [_ Hfail]; [vm_compute; reflexivity|].
    destruct (Hfail (TransportError "close failed") [] ltac:(vm_compute; reflexivity))
      as (s' & Hrun & Hopen & _).
    exists s'. by split.
Defined.

(** X18 at work: the traversal spawned before the graph was closed. *)
Lemma close_is_one_shot_witness :
  Graph.next Wire.count_vertices (Graph.close 0 (Wire.one_graph Wire.socket)).2 =
    (Raise (AttributeError "submit"), (Graph.close 0 (Wire.one_graph Wire.socket)).2) ∧
  Graph.close 0 (Graph.close 0 (Wire.one_graph Wire.socket)).2 =
    (Raise (AttributeError "close"), (Graph.close 0 (Wire.one_graph Wire.socket)).2).
Proof.
  destruct (close_is_one_shot 0 (Wire.one_graph Wire.socket)
              (Graph.close 0 (Wire.one_graph Wire.socket)).2) as (Hclose & _ & Hnext);
    [vm_compute; reflexivity|].
  split; [|exact Hclose]. by apply (Hnext Wire.count_vertices).
Defined.

(** X19 at work: one traversal inside [async with]: its response comes out
    and the graph is left closed. *)
Lemma async_with_closes_witness :
  ∃ s2, Graph.async_with 0 (λ _, Graph.next Wire.count_vertices)
          (Wire.one_graph Wire.socket) = (Ok "ok:g.V().count()", s2) ∧
    Graph.closed 0 s2 ∧ Graph.gworld s2 = ["g.V().count()"] ∧
    Graph.calls s2 =
      [Graph.Submitted "ws://localhost:8182/" "g.V().count()" [] "gremlin-groovy";
       Graph.Closed "ws://localhost:8182/"].
Proof.
  destruct (async_with_closes 0 (λ _, Graph.next Wire.count_vertices)
              (Wire.one_graph Wire.socket) (Ok "ok:g.V().count()")
              (Graph.next Wire.count_vertices (Wire.one_graph Wire.socket)).2)
    as (Hok & _); [vm_compute; reflexivity|discriminate|].
  apply (Hok Wire.socket ["g.V().count()"]); vm_compute; reflexivity.
Defined.
